(** * check-compat.ts: the Angular dependency compatibility checker

    A shallow embedding of [src/check-compat.ts].  The script reads the
    dependency entries of a [package.json], queries the npm registry for
    every entry from a small pool of workers, scans the package's version
    history for versions whose Angular peer requirement admits the target
    major, and pushes one CSV row per entry.

    Conventions of the embedding.
    - The registry ([npm view ...] run through [exec]) is an oracle: a
      function from the command to its outcome.  Every command issued is
      logged in the world, so that "which versions were probed" is a fact
      about the effects of the code.
    - The [semver] package and [String.prototype.localeCompare] are library
      code: the class [Semver] (with three facts about [semver.valid] and
      [semver.gt]) and a section variable.  An instance for plain numeric
      versions serves the scenarios at the end.
    - Module-level [let] variables ([results], [finished], [versionQueries],
      [workerStatuses], ...) are the fields of [World]; the functions of
      the script are computations in the state monad [M] over [World].
      [processPackage] is one function in the script; here its loops and
      the blocks that compute the columns are definitions of their own,
      named after the variable they compute.
    - A JS value that may be [undefined] is an [option string]; a string is
      truthy when it is not empty.
    - Registry answers are typed ([Meta], [PeerDeps], [PackageInfo]); JSON of
      another shape (which would raise a [TypeError] inside the [try] of
      [processPackage]) is outside the model, as are fractional values of
      the numeric flags.  The status display does not throw.
    - The workers of [run] interleave at their awaits.  [results.push] and
      [queue.shift] sit between awaits, and nothing that [processPackage]
      pushes is read from the shared state; a step of the pool is a
      dequeue, a whole [processPackage], or the exit of a worker, and a
      schedule says which worker steps next. *)

From Stdlib Require Import List String Ascii Bool Arith ZArith NArith Lia.
From Stdlib Require Import Permutation DecimalString Sorted.
Import ListNotations.
Open Scope string_scope.

Set Implicit Arguments.

(* ------------------------------------------------------------------ *)
(** ** JavaScript values and string primitives *)

(** [!!s] for a string. *)
Definition truthyStr (s : string) : bool :=
  match s with EmptyString => false | _ => true end.

(** [!!x] for [x : string | undefined]. *)
Definition truthy (x : option string) : bool :=
  match x with Some s => truthyStr s | None => false end.

(** [a || b] on [string | undefined]. *)
Definition jsOr (a b : option string) : option string :=
  if truthy a then a else b.

(** A value spliced into a template literal. *)
Definition tpl (x : option string) : string :=
  match x with Some s => s | None => "undefined" end.

(** [x || ''] *)
Definition orEmpty (x : option string) : string :=
  match jsOr x (Some "") with Some s => s | None => "" end.

(** [s.startsWith(p)] *)
Definition startsWith (p s : string) : bool := String.prefix p s.

(** [s.includes(sub)] *)
Fixpoint includes (sub s : string) : bool :=
  String.prefix sub s ||
  match s with
  | EmptyString => false
  | String _ s' => includes sub s'
  end.

(** [s.toLowerCase()] on the ASCII letters. *)
Definition lowerAscii (c : ascii) : ascii :=
  let n := nat_of_ascii c in
  if ((65 <=? n)%nat && (n <=? 90)%nat)%bool then ascii_of_nat (n + 32) else c.

Fixpoint toLowerCase (s : string) : string :=
  match s with
  | EmptyString => EmptyString
  | String c s' => String (lowerAscii c) (toLowerCase s')
  end.

(** [s.split(sep)] for a one-character separator. *)
Fixpoint split (sep : ascii) (s : string) : list string :=
  match s with
  | EmptyString => [EmptyString]
  | String c rest =>
      if Ascii.eqb c sep then EmptyString :: split sep rest
      else match split sep rest with
           | piece :: pieces => String c piece :: pieces
           | [] => [String c EmptyString]
           end
  end.

(** [`${n}`] for a non-negative integer. *)
Definition showN (n : N) : string := NilZero.string_of_uint (N.to_uint n).
Definition showPos (p : positive) : string := showN (Npos p).

(** [xs.includes(x)] on an array of strings. *)
Definition includesStr (x : string) (xs : list string) : bool :=
  existsb (String.eqb x) xs.

(** [xs.slice(0, n)] and [xs.slice(n)] for an integer [n >= 0]. *)
Definition sliceTo {A} (n : Z) (xs : list A) : list A := firstn (Z.to_nat n) xs.
Definition sliceFrom {A} (n : nat) (xs : list A) : list A := skipn n xs.

(** [xs[xs.length - 1]] *)
Definition lastElt (xs : list string) : option string :=
  match xs with [] => None | _ => Some (last xs "") end.

(** [xs[0]] *)
Definition firstElt (xs : list string) : option string := hd_error xs.

(* ------------------------------------------------------------------ *)
(** ** The semver package, as far as the script uses it *)

Record SemVer := { major : Z; minor : Z; patch : Z }.

Class Semver := {
  (** [semver.valid(v)] is truthy *)
  valid : string -> bool;
  (** [semver.valid('')] is [null] *)
  valid_empty : valid "" = false;
  (** [semver.prerelease(v)] is truthy *)
  prerelease : string -> bool;
  (** [semver.rcompare(a, b)]: [Lt] when [a] sorts before [b] *)
  rcompare : string -> string -> comparison;
  (** [semver.satisfies(version, range, { includePrerelease })] *)
  satisfies : string -> string -> bool -> bool;
  (** [semver.parse(v)], [None] for [null] *)
  parse : string -> option SemVer;
  (** [semver.eq(a, b)] and [semver.gt(a, b)], [None] when they throw *)
  eq : string -> string -> option bool;
  gt : string -> string -> option bool;
  (** no version is greater than itself, and [semver.gt] throws on what is
      not a version *)
  gt_irrefl : forall v, gt v v <> Some true;
  gt_valid : forall a b, gt a b = Some true -> valid a = true
}.

(** [Array.prototype.sort(cmp)]: a stable sort, here by insertion. *)
Section Sort.
Context {A : Type} (cmp : A -> A -> comparison).

Fixpoint insertSorted (x : A) (xs : list A) : list A :=
  match xs with
  | [] => [x]
  | y :: ys =>
      match cmp x y with
      | Gt => y :: insertSorted x ys
      | _ => x :: xs
      end
  end.

Definition sortBy (xs : list A) : list A :=
  fold_right insertSorted [] xs.
End Sort.

(* ------------------------------------------------------------------ *)
(** ** Data model *)

(** [interface DepInfo] with [isDev]; optional fields are [option]s. *)
Record DepInfo := {
  name : string;
  current : string;
  latest : option string;
  earliestCompat : option string;
  latestCompat : option string;
  peerAngular : option string;
  versionsBehindLatestCompat : option string;
  recommendedVersion : option string;
  note : option string;
  migrationLink : option string;
  isDev : bool
}.

(** [type DepEntry] *)
Record DepEntry := {
  entryName : string;
  entryCurrent : string;
  entryIsDev : bool
}.

(** The command-line flags, after parsing. *)
Record Config := {
  includePrerelease : bool;
  showProgress : bool;
  exhaustive : bool;
  verbose : bool;
  fastLimit : Z;
  jobs : positive;                       (* accepted only when > 0 *)
  angularMajor : positive                (* accepted only when > 0 *)
}.

(** What [npm view <name> --json] answers, as far as it is read. *)
Record Meta := {
  metaVersion : option string;
  metaVersions : option (list string);   (* [None]: not an array *)
  metaHomepage : option string;
  metaRepositoryUrl : option string
}.

(** What [npm view <name>@<v> peerDependencies --json] answers. *)
Record PeerDeps := {
  peerAngularCore : option string;       (* peerDeps['@angular/core'] *)
  peerAngularJs : option string          (* peerDeps.angular *)
}.

(** What [npm view <name> keywords description --json] answers. *)
Record PackageInfo := {
  infoKeywords : option (list string);   (* [None]: not an array *)
  infoDescription : option string
}.

(** The commands the script runs. *)
Inductive Cmd :=
| NpmView (pkgName : string)
| NpmViewPeerDeps (pkgName version : string)
| NpmViewInfo (pkgName : string).

(** The registry: the outcome of each command; [None] is a rejected
    promise (non-zero exit, or output that is not JSON). *)
Record Registry := {
  viewMeta : string -> option Meta;
  viewPeerDeps : string -> string -> option PeerDeps;
  viewInfo : string -> option PackageInfo
}.

(** [const MIGRATION_LINKS]; a package name of the table's own prototype
    (such as [constructor]) is not modelled. *)
Definition MIGRATION_LINKS : list (string * string) := [
  ("@angular/core", "https://update.angular.io/");
  ("@angular/common", "https://update.angular.io/");
  ("@angular/forms", "https://update.angular.io/");
  ("@angular/router", "https://update.angular.io/");
  ("@angular/platform-browser", "https://update.angular.io/");
  ("@angular/platform-browser-dynamic", "https://update.angular.io/");
  ("@angular/compiler", "https://update.angular.io/");
  ("@angular/compiler-cli", "https://update.angular.io/");
  ("@angular/cli", "https://update.angular.io/");
  ("@angular/build", "https://github.com/angular/angular-cli/releases");
  ("@angular/language-service", "https://github.com/angular/angular/releases");
  ("@ionic/angular", "https://ionicframework.com/docs/reference/versioning#release-notes");
  ("@ionic/angular-toolkit", "https://github.com/ionic-team/angular-toolkit/releases");
  ("@capacitor/core", "https://capacitorjs.com/docs/updating");
  ("@capacitor/cli", "https://capacitorjs.com/docs/updating");
  ("@capacitor/app", "https://capacitorjs.com/docs/updating");
  ("@capacitor/haptics", "https://capacitorjs.com/docs/updating");
  ("@capacitor/keyboard", "https://capacitorjs.com/docs/updating");
  ("@capacitor/status-bar", "https://capacitorjs.com/docs/updating");
  ("@ngxs/store", "https://ngxs.gitbook.io/ngxs/migrations");
  ("@ngxs/logger-plugin", "https://ngxs.gitbook.io/ngxs/migrations");
  ("@ngxs/devtools-plugin", "https://ngxs.gitbook.io/ngxs/migrations");
  ("ngxs-reset-plugin", "https://github.com/ngxs-labs/reset-plugin/releases");
  ("@ngneat/until-destroy", "https://github.com/ngneat/until-destroy/releases");
  ("@ngx-translate/core", "https://github.com/ngx-translate/core/releases");
  ("@ngx-translate/http-loader", "https://github.com/ngx-translate/http-loader/releases");
  ("ionicons", "https://github.com/ionic-team/ionicons/releases");
  ("ngx-ellipsis", "https://github.com/lentschi/ngx-ellipsis/releases");
  ("survey-angular-ui", "https://github.com/surveyjs/survey-library/blob/master/CHANGELOG.md");
  ("@angular-eslint/builder", "https://github.com/angular-eslint/angular-eslint/blob/main/CHANGELOG.md");
  ("@angular-eslint/eslint-plugin", "https://github.com/angular-eslint/angular-eslint/blob/main/CHANGELOG.md");
  ("@angular-eslint/eslint-plugin-template", "https://github.com/angular-eslint/angular-eslint/blob/main/CHANGELOG.md");
  ("@angular-eslint/schematics", "https://github.com/angular-eslint/angular-eslint/blob/main/CHANGELOG.md");
  ("@angular-eslint/template-parser", "https://github.com/angular-eslint/angular-eslint/blob/main/CHANGELOG.md");
  ("@typescript-eslint/eslint-plugin", "https://github.com/typescript-eslint/typescript-eslint/blob/main/packages/eslint-plugin/CHANGELOG.md");
  ("@typescript-eslint/parser", "https://github.com/typescript-eslint/typescript-eslint/blob/main/packages/parser/CHANGELOG.md");
  ("eslint", "https://github.com/eslint/eslint/releases");
  ("eslint-config-prettier", "https://github.com/prettier/eslint-config-prettier/blob/main/CHANGELOG.md");
  ("eslint-plugin-prettier", "https://github.com/prettier/eslint-plugin-prettier/blob/master/CHANGELOG.md");
  ("prettier", "https://github.com/prettier/prettier/releases");
  ("stylelint", "https://github.com/stylelint/stylelint/blob/main/CHANGELOG.md");
  ("stylelint-config-standard", "https://github.com/stylelint/stylelint-config-standard/releases");
  ("stylelint-config-standard-scss", "https://github.com/stylelint-scss/stylelint-config-standard-scss/releases");
  ("jest", "https://github.com/jestjs/jest/blob/main/CHANGELOG.md");
  ("jest-preset-angular", "https://github.com/thymikee/jest-preset-angular/blob/main/CHANGELOG.md");
  ("@types/jest", "https://github.com/DefinitelyTyped/DefinitelyTyped/tree/master/types/jest");
  ("jest-junit", "https://github.com/jest-community/jest-junit/releases");
  ("jest-sonar-reporter", "https://github.com/3dmind/jest-sonar-reporter/releases");
  ("rxjs", "https://rxjs.dev/deprecations");
  ("zone.js", "https://github.com/angular/angular/blob/main/packages/zone.js/CHANGELOG.md");
  ("typescript", "https://devblogs.microsoft.com/typescript/");
  ("lodash-es", "https://github.com/lodash/lodash/wiki/Changelog");
  ("jwt-decode", "https://github.com/auth0/jwt-decode/blob/master/CHANGELOG.md");
  ("ua-parser-js", "https://github.com/faisalman/ua-parser-js/blob/master/CHANGELOG.md");
  ("@types/ua-parser-js", "https://github.com/DefinitelyTyped/DefinitelyTyped/tree/master/types/ua-parser-js");
  ("ts-node", "https://github.com/TypeStrong/ts-node/blob/main/CHANGELOG.md");
  ("tslib", "https://github.com/microsoft/tslib/releases");
  ("sonarqube-scanner", "https://github.com/SonarSource/sonarqube-scanner-npm/blob/master/CHANGELOG.md");
  ("sonarjs", "https://github.com/SonarSource/eslint-plugin-sonarjs/blob/master/CHANGELOG.md");
  ("replace-in-file", "https://github.com/adamreisnz/replace-in-file/blob/master/CHANGELOG.md");
  ("ncp", "https://github.com/AvianFlu/ncp/issues")
].

(** [MIGRATION_LINKS[name]] *)
Fixpoint lookupLink (tbl : list (string * string)) (n : string) : option string :=
  match tbl with
  | [] => None
  | (k, v) :: tbl' => if String.eqb k n then Some v else lookupLink tbl' n
  end.

(* ------------------------------------------------------------------ *)
(** ** The world: module-level state and the effects of the script *)

(** What is written to stderr, up to its rendering. *)
Inductive StderrItem :=
| Newlines
| Frame (done total : nat) (statusLines : list string)
| ClearProgress
| Summary (packages lookups concurrency : nat) (angular : positive)
          (fastMode exhaustiveMode : bool).

Record World := {
  results : list DepInfo;
  finished : nat;
  versionQueries : nat;
  workerCount : nat;
  workerStatuses : list (option string);  (* [None]: a hole of the array *)
  displayInitialized : bool;
  lastRedrawTime : Z;
  timeline : nat -> Z;                   (* successive values of Date.now() *)
  clockReads : nat;
  stderr : list StderrItem;
  stdout : list string;                  (* one line per console.log *)
  execLog : list Cmd                     (* commands run, oldest first *)
}.

Definition M (A : Type) : Type := World -> A * World.

Definition ret {A} (a : A) : M A := fun w => (a, w).
Definition bind {A B} (c : M A) (k : A -> M B) : M B :=
  fun w => let (a, w') := c w in k a w'.
Definition modify (f : World -> World) : M unit := fun w => (tt, f w).
Definition gets {A} (f : World -> A) : M A := fun w => (f w, w).
Definition when (b : bool) (c : M unit) : M unit := if b then c else ret tt.

Notation "x <- c ;; k" := (bind c (fun x => k))
  (at level 61, c at next level, right associativity).
Notation "c ;; k" := (bind c (fun _ => k))
  (at level 61, right associativity).

(** [arr[i] = x], which extends the array when [i] is past its end. *)
Fixpoint setIndex (i : nat) (x : string) (arr : list (option string))
  : list (option string) :=
  match i, arr with
  | O, [] => [Some x]
  | O, _ :: t => Some x :: t
  | S i', [] => None :: setIndex i' x []
  | S i', h :: t => h :: setIndex i' x t
  end.

Definition setResults r w := {|
  results := r; finished := finished w; versionQueries := versionQueries w;
  workerCount := workerCount w; workerStatuses := workerStatuses w;
  displayInitialized := displayInitialized w;
  lastRedrawTime := lastRedrawTime w; timeline := timeline w;
  clockReads := clockReads w; stderr := stderr w; stdout := stdout w;
  execLog := execLog w |}.
Definition setFinished n w := {|
  results := results w; finished := n; versionQueries := versionQueries w;
  workerCount := workerCount w; workerStatuses := workerStatuses w;
  displayInitialized := displayInitialized w;
  lastRedrawTime := lastRedrawTime w; timeline := timeline w;
  clockReads := clockReads w; stderr := stderr w; stdout := stdout w;
  execLog := execLog w |}.
Definition setVersionQueries n w := {|
  results := results w; finished := finished w; versionQueries := n;
  workerCount := workerCount w; workerStatuses := workerStatuses w;
  displayInitialized := displayInitialized w;
  lastRedrawTime := lastRedrawTime w; timeline := timeline w;
  clockReads := clockReads w; stderr := stderr w; stdout := stdout w;
  execLog := execLog w |}.
Definition setWorkerCount n w := {|
  results := results w; finished := finished w;
  versionQueries := versionQueries w;
  workerCount := n; workerStatuses := workerStatuses w;
  displayInitialized := displayInitialized w;
  lastRedrawTime := lastRedrawTime w; timeline := timeline w;
  clockReads := clockReads w; stderr := stderr w; stdout := stdout w;
  execLog := execLog w |}.
Definition setWorkerStatuses s w := {|
  results := results w; finished := finished w;
  versionQueries := versionQueries w;
  workerCount := workerCount w; workerStatuses := s;
  displayInitialized := displayInitialized w;
  lastRedrawTime := lastRedrawTime w; timeline := timeline w;
  clockReads := clockReads w; stderr := stderr w; stdout := stdout w;
  execLog := execLog w |}.
Definition setDisplayInitialized b w := {|
  results := results w; finished := finished w;
  versionQueries := versionQueries w;
  workerCount := workerCount w; workerStatuses := workerStatuses w;
  displayInitialized := b;
  lastRedrawTime := lastRedrawTime w; timeline := timeline w;
  clockReads := clockReads w; stderr := stderr w; stdout := stdout w;
  execLog := execLog w |}.
Definition setLastRedrawTime t w := {|
  results := results w; finished := finished w;
  versionQueries := versionQueries w;
  workerCount := workerCount w; workerStatuses := workerStatuses w;
  displayInitialized := displayInitialized w;
  lastRedrawTime := t; timeline := timeline w;
  clockReads := clockReads w; stderr := stderr w; stdout := stdout w;
  execLog := execLog w |}.
Definition setClockReads n w := {|
  results := results w; finished := finished w;
  versionQueries := versionQueries w;
  workerCount := workerCount w; workerStatuses := workerStatuses w;
  displayInitialized := displayInitialized w;
  lastRedrawTime := lastRedrawTime w; timeline := timeline w;
  clockReads := n; stderr := stderr w; stdout := stdout w;
  execLog := execLog w |}.
Definition setStderr o w := {|
  results := results w; finished := finished w;
  versionQueries := versionQueries w;
  workerCount := workerCount w; workerStatuses := workerStatuses w;
  displayInitialized := displayInitialized w;
  lastRedrawTime := lastRedrawTime w; timeline := timeline w;
  clockReads := clockReads w; stderr := o; stdout := stdout w;
  execLog := execLog w |}.
Definition setStdout o w := {|
  results := results w; finished := finished w;
  versionQueries := versionQueries w;
  workerCount := workerCount w; workerStatuses := workerStatuses w;
  displayInitialized := displayInitialized w;
  lastRedrawTime := lastRedrawTime w; timeline := timeline w;
  clockReads := clockReads w; stderr := stderr w; stdout := o;
  execLog := execLog w |}.
Definition setExecLog l w := {|
  results := results w; finished := finished w;
  versionQueries := versionQueries w;
  workerCount := workerCount w; workerStatuses := workerStatuses w;
  displayInitialized := displayInitialized w;
  lastRedrawTime := lastRedrawTime w; timeline := timeline w;
  clockReads := clockReads w; stderr := stderr w; stdout := stdout w;
  execLog := l |}.

(** The state of the module-level variables when [run] is called. *)
Definition initialWorld (tl : nat -> Z) : World := {|
  results := []; finished := 0; versionQueries := 0; workerCount := 0;
  workerStatuses := []; displayInitialized := false; lastRedrawTime := 0;
  timeline := tl; clockReads := 0; stderr := []; stdout := []; execLog := [] |}.

(** [Date.now()] *)
Definition dateNow : M Z :=
  fun w => (timeline w (clockReads w), setClockReads (S (clockReads w)) w).

(** [process.stderr.write(...)], one item per screenful. *)
Definition writeStderr (item : StderrItem) : M unit :=
  modify (fun w => setStderr (stderr w ++ [item]) w).

(** [results.push(info)] *)
Definition pushResult (info : DepInfo) : M unit :=
  modify (fun w => setResults (results w ++ [info]) w).

(* ------------------------------------------------------------------ *)
(** ** The command line *)

Section Flags.
(** [Number(s)]: [None] for [NaN]; fractional values are not modelled. *)
Variable Number : string -> option Z.

(** [fastArg.split('=')[1]], as read by [Number(parts[1] || 15)]. *)
Definition flagValue (arg : string) (default : Z) : option Z :=
  match nth_error (split "=" arg) 1 with
  | Some s => if truthyStr s then Number s else Some default
  | None => Some default
  end.

(** [let fastLimit]: [Number(parts[1] || 15) || 15] when an argument
    starts with [--fast], else [0].  (The [else if] on
    [args.includes('--fast')] cannot fire: [find] would have found it.) *)
Definition parseFastLimit (args : list string) : Z :=
  match find (startsWith "--fast") args with
  | Some fastArg =>
      match flagValue fastArg 15 with
      | Some n => if (n =? 0)%Z then 15%Z else n
      | None => 15%Z
      end
  | None => 0%Z
  end.

(** [let jobs]: [Number(jobsArg.split('=')[1])] when it is [> 0], else 4. *)
Definition parseJobs (args : list string) : positive :=
  match find (startsWith "--jobs=") args with
  | Some jobsArg =>
      match nth_error (split "=" jobsArg) 1 with
      | Some s =>
          match Number s with
          | Some n => if (0 <? n)%Z then Z.to_pos n else 4%positive
          | None => 4%positive
          end
      | None => 4%positive
      end
  | None => 4%positive
  end.

(** [let angularMajor]: the value of [--angular=] when it is [> 0],
    else 19. *)
Definition parseAngularMajor (args : list string) : positive :=
  match find (startsWith "--angular=") args with
  | Some angularArg =>
      match nth_error (split "=" angularArg) 1 with
      | Some s =>
          match Number s with
          | Some n => if (0 <? n)%Z then Z.to_pos n else 19%positive
          | None => 19%positive
          end
      | None => 19%positive
      end
  | None => 19%positive
  end.

Definition parseArgs (args : list string) : Config := {|
  includePrerelease := includesStr "--include-prerelease" args;
  showProgress := negb (includesStr "--no-progress" args);
  exhaustive := includesStr "--exhaustive" args;
  verbose := includesStr "--verbose" args;
  fastLimit := parseFastLimit args;
  jobs := parseJobs args;
  angularMajor := parseAngularMajor args |}.
End Flags.

(* ------------------------------------------------------------------ *)
(** ** The manifest *)

(** The filter on the names of [package.json]:
    [!name.startsWith('@angular/') && !name.startsWith('@ptp/')] *)
Definition keepsDependency (n : string) : bool :=
  (negb (startsWith "@angular/" n) && negb (startsWith "@ptp/" n))%bool.

(** [Object.entries(deps).filter(...).map(([name, current]) => ({ name,
    current, isDev }))], [deps] given as its list of entries. *)
Definition entriesOf (dev : bool) (deps : list (string * string))
  : list DepEntry :=
  map (fun nc => {| entryName := fst nc; entryCurrent := snd nc;
                    entryIsDev := dev |})
      (filter (fun nc => keepsDependency (fst nc)) deps).

(** [const depEntries], from [pkg.dependencies] and [pkg.devDependencies]
    (each [{}] when missing). *)
Definition depEntriesOf (regularDeps devDeps : list (string * string))
  : list DepEntry :=
  (entriesOf false regularDeps ++ entriesOf true devDeps)%list.

(* ------------------------------------------------------------------ *)
(** ** The script *)

(** [stripRange]: [v.replace(/^[~^]/, '')] *)
Definition stripRange (v : string) : string :=
  match v with
  | String c rest =>
      if (Ascii.eqb c "~" || Ascii.eqb c "^")%bool then rest else v
  | EmptyString => v
  end.

(** [resolveMigrationLink] *)
Definition resolveMigrationLink (n : string) (meta : Meta) : string :=
  if truthy (lookupLink MIGRATION_LINKS n) then tpl (lookupLink MIGRATION_LINKS n)
  else if startsWith "@ptp/" n then ""
  else orEmpty (jsOr (metaHomepage meta) (metaRepositoryUrl meta)).

(** The local variables of [processPackage] that the two scanning loops
    update. *)
Record Scan := {
  scanPeerAngular : option string;       (* [peerAngular] *)
  compatVersions : list string;
  hasAngularPeerDep : bool;
  currentVersionFound : bool;
  versionIndex : nat
}.

(** The result of [checkAngularCompatibility]. *)
Record CompatInfo := { isCompatible : bool; reason : string }.

Section Script.
Context {semver : Semver}.
Variable localeCompare : string -> string -> comparison.
Variable cfg : Config.
Variable reg : Registry.
Variable depEntries : list DepEntry.

(** [const total = depEntries.length] *)
Definition total : nat := List.length depEntries.

(** [satisfiesAngular] *)
Definition satisfiesAngular (range : string) (maj : positive) : bool :=
  satisfies (showPos maj ++ ".0.0") range (includePrerelease cfg).

(** [redrawScreen]: the progress line and one line per worker. *)
Definition redrawScreen : M unit :=
  if negb (showProgress cfg) then ret tt
  else
    w <- gets (fun w => w) ;;
    writeStderr
      (Frame (finished w) total
         (map (fun i => tpl (jsOr (nth i (workerStatuses w) None)
                                  (Some "Initializing...")))
              (seq 0 (workerCount w)))).

(** [updateWorkerStatus] *)
Definition updateWorkerStatus (workerId : nat) (status : string) : M unit :=
  initialized <- gets displayInitialized ;;
  if (negb (showProgress cfg) || negb initialized)%bool then ret tt
  else
    modify (fun w =>
      setWorkerStatuses (setIndex workerId status (workerStatuses w)) w) ;;
    now <- dateNow ;;
    lastRedraw <- gets lastRedrawTime ;;
    if (100 <? now - lastRedraw)%Z then
      modify (setLastRedrawTime now) ;;
      redrawScreen
    else ret tt.

(** [execJson] and [execRaw] on the three commands of the script: the
    command is run (logged) and the registry decides its outcome. *)
Definition execMeta (n : string) : M (option Meta) :=
  modify (fun w => setExecLog (execLog w ++ [NpmView n]) w) ;;
  ret (viewMeta reg n).

Definition execPeerDeps (n v : string) : M (option PeerDeps) :=
  modify (fun w => setExecLog (execLog w ++ [NpmViewPeerDeps n v]) w) ;;
  ret (viewPeerDeps reg n v).

Definition execInfo (n : string) : M (option PackageInfo) :=
  modify (fun w => setExecLog (execLog w ++ [NpmViewInfo n]) w) ;;
  ret (viewInfo reg n).

(** [peerDeps['@angular/core'] || peerDeps.angular], where [peerDeps]
    stays [{}] when the query is rejected. *)
Definition angularPeer (r : option PeerDeps) : option string :=
  match r with
  | Some pd => jsOr (peerAngularCore pd) (peerAngularJs pd)
  | None => None
  end.

(** The body shared by the two loops: count the query, run it, and read
    the Angular peer range. *)
Definition queryPeer (n v : string) : M (option string) :=
  modify (fun w => setVersionQueries (S (versionQueries w)) w) ;;
  r <- execPeerDeps n v ;;
  ret (angularPeer r).

(** [if (!peer || satisfiesAngular(peer, angularMajor))] *)
Definition classifiedCompatible (peer : option string) : bool :=
  (negb (truthy peer) || satisfiesAngular (tpl peer) (angularMajor cfg))%bool.

(** One iteration of the first loop, up to the test for [break]. *)
Definition scanStep (currentClean v : string) (peer : option string)
           (st : Scan) : Scan :=
  {| scanPeerAngular :=
       if truthy peer
       then (if negb (truthy (scanPeerAngular st)) then peer
             else scanPeerAngular st)
       else scanPeerAngular st;
     compatVersions :=
       if classifiedCompatible peer then compatVersions st ++ [v]
       else compatVersions st;
     hasAngularPeerDep :=
       if truthy peer then true else hasAngularPeerDep st;
     currentVersionFound :=
       if String.eqb v currentClean then true else currentVersionFound st;
     versionIndex := S (versionIndex st) |}.

(** [if (!exhaustive && !hasAngularPeerDep && compatVersions.length > 0)] *)
Definition earlyExit (st : Scan) : bool :=
  (negb (exhaustive cfg) && negb (hasAngularPeerDep st)
   && (0 <? List.length (compatVersions st))%nat)%bool.

(** [for (const v of versionsToCheck)] *)
Fixpoint scanLoop (workerId : nat) (n currentClean : string)
         (versionsToCheck : list string) (st : Scan) : M Scan :=
  match versionsToCheck with
  | [] => ret st
  | v :: rest =>
      updateWorkerStatus workerId ("scan " ++ n ++ "@" ++ v) ;;
      peer <- queryPeer n v ;;
      let st' := scanStep currentClean v peer st in
      if earlyExit st' then ret st'
      else scanLoop workerId n currentClean rest st'
  end.

(** One iteration of the extension loop, up to the test for [break];
    [hasAngularPeerDep] and [versionIndex] are not touched there. *)
Definition extendStep (currentClean v : string) (peer : option string)
           (st : Scan) : Scan :=
  {| scanPeerAngular :=
       if truthy peer
       then (if negb (truthy (scanPeerAngular st)) then peer
             else scanPeerAngular st)
       else scanPeerAngular st;
     compatVersions :=
       if classifiedCompatible peer then compatVersions st ++ [v]
       else compatVersions st;
     hasAngularPeerDep := hasAngularPeerDep st;
     currentVersionFound :=
       if String.eqb v currentClean then true else currentVersionFound st;
     versionIndex := versionIndex st |}.

(** [for (const v of remainingVersions)] *)
Fixpoint extendLoop (workerId : nat) (n currentClean : string)
         (remainingVersions : list string) (st : Scan) : M Scan :=
  match remainingVersions with
  | [] => ret st
  | v :: rest =>
      updateWorkerStatus workerId
        ("scan " ++ n ++ "@" ++ v ++ " (extended)") ;;
      peer <- queryPeer n v ;;
      let st' := extendStep currentClean v peer st in
      if String.eqb v currentClean then ret st'
      else extendLoop workerId n currentClean rest st'
  end.

(** The versions of the package: [meta.versions] (or [[meta.version]]),
    filtered and sorted newest first. *)
Definition packageVersions (meta : Meta) : list string :=
  let versions :=
    match metaVersions meta with
    | Some vs => vs
    | None => match metaVersion meta with Some v => [v] | None => [] end
    end in
  let versions := filter valid versions in
  let versions :=
    if negb (includePrerelease cfg)
    then filter (fun v => negb (prerelease v)) versions
    else versions in
  sortBy rcompare versions.

(** [versionsToCheck] *)
Definition candidateVersions (versions : list string) : list string :=
  if (0 <? fastLimit cfg)%Z then sliceTo (fastLimit cfg) versions
  else versions.

(** The state of the loop variables before the first loop. *)
Definition scanInit (versions : list string) (currentClean : string) : Scan :=
  {| scanPeerAngular := None;
     compatVersions := [];
     hasAngularPeerDep := false;
     currentVersionFound :=
       if (0 <? fastLimit cfg)%Z
       then includesStr currentClean (candidateVersions versions)
       else false;
     versionIndex := 0 |}.

(** The condition of the extension. *)
Definition mustExtend (versions : list string) (st : Scan) : bool :=
  (hasAngularPeerDep st && negb (currentVersionFound st)
   && (0 <? fastLimit cfg)%Z
   && (versionIndex st <? List.length versions)%nat)%bool.

(** Both loops of [processPackage]. *)
Definition scanVersions (workerId : nat) (n currentClean : string)
           (versions : list string) : M Scan :=
  st <- scanLoop workerId n currentClean (candidateVersions versions)
                 (scanInit versions currentClean) ;;
  if mustExtend versions st then
    updateWorkerStatus workerId
      ("extending search for " ++ n ++ " to find current version") ;;
    extendLoop workerId n currentClean
               (sliceFrom (versionIndex st) versions) st
  else ret st.

(** [latestCompat] and [earliestCompat] after the loops. *)
Definition latestCompatOf (st : Scan) : option string :=
  if (0 <? List.length (compatVersions st))%nat
  then firstElt (compatVersions st) else None.

Definition earliestCompatOf (st : Scan) : option string :=
  if (hasAngularPeerDep st && (0 <? List.length (compatVersions st))%nat)%bool
  then lastElt (compatVersions st) else None.

(** [`version${d > 1 ? 's' : ''}`] *)
Definition versionWord (d : Z) : string :=
  "version" ++ (if (1 <? d)%Z then "s" else "").

(** The comparison of [currentClean] with a baseline; the script has it
    twice, with the four texts that differ passed here as arguments. *)
Definition describeDistance (upToDate ahead behind formatDiff : string)
           (currentClean baseline : string) : string :=
  match parse currentClean, parse baseline with
  | Some currentSemver, Some baseSemver =>
      match eq currentClean baseline with
      | None => "Version comparison failed"
      | Some true => upToDate
      | Some false =>
          match gt currentClean baseline with
          | None => "Version comparison failed"
          | Some true => ahead
          | Some false =>
              let majorDiff := (major baseSemver - major currentSemver)%Z in
              let minorDiff := (minor baseSemver - minor currentSemver)%Z in
              let patchDiff := (patch baseSemver - patch currentSemver)%Z in
              if (0 <? majorDiff)%Z then
                showN (Z.to_N majorDiff) ++ " major "
                  ++ versionWord majorDiff ++ behind
              else if (0 <? minorDiff)%Z then
                showN (Z.to_N minorDiff) ++ " minor "
                  ++ versionWord minorDiff ++ behind
              else if (0 <? patchDiff)%Z then
                showN (Z.to_N patchDiff) ++ " patch "
                  ++ versionWord patchDiff ++ behind
              else formatDiff
          end
      end
  | _, _ => "Invalid version format"
  end.

(** [versionsBehindLatestCompatDisplay] *)
Definition versionsBehindDisplay (st : Scan) (latestV : option string)
           (currentClean : string) : string :=
  if hasAngularPeerDep st then
    if (truthy (latestCompatOf st) && truthyStr currentClean)%bool then
      describeDistance "Up to date with latest compatible"
        "Ahead of latest compatible" " behind latest compatible"
        "Behind latest compatible (version format difference)"
        currentClean (tpl (latestCompatOf st))
    else if negb (truthy (latestCompatOf st)) then "No compatible version found"
    else "Unknown"
  else
    if (truthy latestV && truthyStr currentClean)%bool then
      describeDistance "Up to date" "Ahead of latest" " behind"
        "Behind (version format difference)" currentClean (tpl latestV)
    else "Unknown".

(** [angularCompatiblePackages], [angularKeywords], [utilityKeywords] *)
Definition angularCompatiblePackages : list string := [
  "rxjs"; "zone.js"; "tslib"; "typescript";
  "lodash"; "lodash-es"; "moment"; "date-fns";
  "jwt-decode"; "ua-parser-js"; "uuid";
  "@types/node"; "@types/jest"; "@types/jasmine";
  "jest"; "jasmine"; "karma"; "protractor";
  "eslint"; "prettier"; "stylelint";
  "webpack"; "rollup"; "vite" ].
Definition angularKeywords : list string := ["angular"; "ng"; "ngx"].
Definition utilityKeywords : list string :=
  ["utility"; "util"; "helper"; "tool"; "library"; "polyfill"].

(** [keywords.some(k => words.some(w => k.toLowerCase().includes(w)))] *)
Definition someKeyword (words keywords : list string) : bool :=
  existsb (fun keyword =>
    existsb (fun w => includes w (toLowerCase keyword)) words) keywords.

(** [checkAngularCompatibility] *)
Definition checkAngularCompatibility (n : string) (latestV : option string)
           (versions : list string) (workerId : nat) : M CompatInfo :=
  if existsb (fun pkg => startsWith pkg n) angularCompatiblePackages then
    ret {| isCompatible := true;
           reason := "Known Angular-compatible package" |}
  else
    updateWorkerStatus workerId ("checking Angular compat " ++ n) ;;
    r <- execInfo n ;;
    match r with
    | None =>
        ret {| isCompatible := false;
               reason := "Failed to check compatibility" |}
    | Some packageInfo =>
        let keywords :=
          match infoKeywords packageInfo with Some ks => ks | None => [] end in
        let description := orEmpty (infoDescription packageInfo) in
        let hasAngularKeywords := someKeyword angularKeywords keywords in
        let hasAngularDescription :=
          existsb (fun ng => includes ng (toLowerCase description))
                  angularKeywords in
        if (hasAngularKeywords || hasAngularDescription)%bool then
          let latestSemver :=
            match latestV with Some l => parse l | None => None end in
          let recentVersions := sliceTo 5 versions in
          let hasRecentActivity := (0 <? List.length recentVersions)%nat in
          match latestSemver with
          | Some _ =>
              if hasRecentActivity then
                ret {| isCompatible := true;
                       reason := "Angular-related package with recent updates" |}
              else
                ret {| isCompatible := false;
                       reason := "Angular-related but may be outdated" |}
          | None =>
              ret {| isCompatible := false;
                     reason := "Angular-related but may be outdated" |}
          end
        else if (someKeyword utilityKeywords keywords
                 || startsWith "@types/" n)%bool then
          ret {| isCompatible := true;
                 reason := "Framework-agnostic utility package" |}
        else
          ret {| isCompatible := true;
                 reason := "No explicit framework dependencies detected" |}
    end.

(** [a === b] on [string | undefined]. *)
Definition strictEq (a b : option string) : bool :=
  match a, b with
  | Some x, Some y => String.eqb x y
  | None, None => true
  | _, _ => false
  end.

(** [recommendedVersionDisplay] *)
Definition recommendedVersionDisplay (st : Scan) (latestV : option string)
           (currentClean : string) (info : CompatInfo) : string :=
  if hasAngularPeerDep st then
    if negb (truthy (latestCompatOf st)) then "n/a"
    else if includesStr currentClean (compatVersions st) then
      if strictEq (Some currentClean) (latestCompatOf st)
      then "#3 Keep current version"
      else "#2 Optionally upgrade to " ++ tpl (latestCompatOf st)
    else
      if truthy (earliestCompatOf st)
      then "#1 Must upgrade to " ++ tpl (earliestCompatOf st)
      else "n/a"
  else
    if isCompatible info then
      if strictEq (Some currentClean) latestV
      then "#3 Keep current version"
      else "#2 Optionally upgrade to " ++ tpl latestV
    else
      if (truthy latestV && negb (strictEq (Some currentClean) latestV))%bool
      then "#1 Must upgrade to " ++ tpl latestV
      else "n/a".

(** [noteDisplay] *)
Definition noteDisplay (st : Scan) (latestV : option string)
           (currentClean : string) (info : CompatInfo) : string :=
  if hasAngularPeerDep st then
    if negb (truthy (latestCompatOf st)) then
      "No compatible version found for Angular " ++ showPos (angularMajor cfg)
    else if includesStr currentClean (compatVersions st) then
      "Current version is compatible"
    else
      if strictEq (latestCompatOf st) (Some currentClean) then "Up to date"
      else if (negb (strictEq (latestCompatOf st) latestV) && truthy latestV
               && negb (strictEq latestV (latestCompatOf st)))%bool then
        "Newer latest likely needs different Angular peer or is prerelease"
      else if negb (strictEq (latestCompatOf st) (Some currentClean)) then
        "Upgradable within Angular " ++ showPos (angularMajor cfg)
      else ""
  else
    if isCompatible info then
      "Likely compatible with Angular " ++ showPos (angularMajor cfg)
        ++ " - " ++ reason info
    else
      "May not be compatible with Angular " ++ showPos (angularMajor cfg)
        ++ " - " ++ reason info.

(** [const info] of the [try] block. *)
Definition successRecord (entry : DepEntry) (meta : Meta) (st : Scan)
           (info : CompatInfo) : DepInfo :=
  let currentClean := stripRange (entryCurrent entry) in
  let latestV := metaVersion meta in
  {| name := entryName entry;
     current := entryCurrent entry;
     latest := latestV;
     earliestCompat :=
       Some (if hasAngularPeerDep st then orEmpty (earliestCompatOf st)
             else "n/a");
     latestCompat :=
       Some (if hasAngularPeerDep st then orEmpty (latestCompatOf st)
             else "n/a");
     peerAngular :=
       Some (if hasAngularPeerDep st then orEmpty (scanPeerAngular st)
             else "Does not depend on Angular");
     versionsBehindLatestCompat :=
       Some (versionsBehindDisplay st latestV currentClean);
     recommendedVersion :=
       Some (recommendedVersionDisplay st latestV currentClean info);
     note := Some (noteDisplay st latestV currentClean info);
     migrationLink := Some (resolveMigrationLink (entryName entry) meta);
     isDev := entryIsDev entry |}.

(** The record pushed by the [catch] block. *)
Definition failureRecord (entry : DepEntry) : DepInfo :=
  {| name := entryName entry;
     current := entryCurrent entry;
     latest := None;
     earliestCompat := Some "n/a";
     latestCompat := Some "n/a";
     peerAngular := Some "Unknown";
     versionsBehindLatestCompat := Some "Unknown";
     recommendedVersion := Some "n/a";
     note := Some "Failed to fetch metadata";
     migrationLink := lookupLink MIGRATION_LINKS (entryName entry);
     isDev := entryIsDev entry |}.

(** [processPackage]: the [try] block when the metadata query resolves,
    the [catch] block when it is rejected, then the [finally] block. *)
Definition processPackage (entry : DepEntry) (workerId : nat) : M unit :=
  let n := entryName entry in
  updateWorkerStatus workerId ("meta " ++ n) ;;
  r <- execMeta n ;;
  match r with
  | Some meta =>
      let latestV := metaVersion meta in
      let versions := packageVersions meta in
      let currentClean := stripRange (entryCurrent entry) in
      st <- scanVersions workerId n currentClean versions ;;
      info <- (if negb (hasAngularPeerDep st)
               then checkAngularCompatibility n latestV versions workerId
               else ret {| isCompatible := true; reason := "" |}) ;;
      pushResult (successRecord entry meta st info) ;;
      when (verbose cfg)
        (updateWorkerStatus workerId
           ("OK: " ++ n ++ " -> "
              ++ tpl (jsOr (latestCompatOf st) (Some "none"))))
  | None =>
      pushResult (failureRecord entry) ;;
      when (verbose cfg) (updateWorkerStatus workerId ("FAIL: " ++ n))
  end ;;
  modify (fun w => setFinished (S (finished w)) w).

(* ---------------------------------------------------------------- *)
(** *** The worker pool of [run] *)

(** A worker of [run] is between two packages ([Idle]: about to test
    [queue.length > 0]), awaiting [processPackage(entry)] ([Busy]), or
    past its loop ([Stopped]). *)
Inductive Worker :=
| Idle
| Busy (entry : DepEntry)
| Stopped.

Record Pool := {
  queue : list DepEntry;
  workers : list Worker;
  world : World
}.

Fixpoint setWorker (i : nat) (x : Worker) (ws : list Worker) : list Worker :=
  match i, ws with
  | _, [] => []
  | O, _ :: t => x :: t
  | S i', h :: t => h :: setWorker i' x t
  end.

(** One step of worker [i].  JavaScript runs the code between two awaits
    without interruption, so [queue.length > 0] and [queue.shift()] are
    one step.  The awaits inside [processPackage] only let the status
    display and the counters of other workers move in between; its
    effects are applied here in one step, when the package is done. *)
Definition workerStep (i : nat) (p : Pool) : option Pool :=
  match nth_error (workers p) i with
  | Some Idle =>
      match queue p with
      | entry :: rest =>
          Some {| queue := rest;
                  workers := setWorker i (Busy entry) (workers p);
                  world := world p |}
      | [] =>
          Some {| queue := [];
                  workers := setWorker i Stopped (workers p);
                  world := snd (updateWorkerStatus i "Finished." (world p)) |}
      end
  | Some (Busy entry) =>
      Some {| queue := queue p;
              workers := setWorker i Idle (workers p);
              world := snd (processPackage entry i (world p)) |}
  | Some Stopped => None
  | None => None
  end.

(** A schedule names the worker that moves next; a worker that cannot
    move is skipped. *)
Fixpoint runSchedule (schedule : list nat) (p : Pool) : Pool :=
  match schedule with
  | [] => p
  | i :: rest =>
      match workerStep i p with
      | Some p' => runSchedule rest p'
      | None => runSchedule rest p
      end
  end.

(** The entries that workers are processing. *)
Definition busyWith (wk : Worker) : list DepEntry :=
  match wk with Busy entry => [entry] | _ => [] end.

Definition inflight (ws : list Worker) : list DepEntry :=
  flat_map busyWith ws.

Definition isStopped (wk : Worker) : bool :=
  match wk with Stopped => true | _ => false end.

(** [Promise.all(workers)] has resolved. *)
Definition allStopped (p : Pool) : bool := forallb isStopped (workers p).

(** The index of the first worker that can still move. *)
Fixpoint firstActive (ws : list Worker) : option nat :=
  match ws with
  | [] => None
  | wk :: t => if isStopped wk then option_map S (firstActive t) else Some 0
  end.

(** Steps left: two per queued entry (dequeue, finish), and for a worker
    its pending finish and its exit from the loop. *)
Definition workerWeight (wk : Worker) : nat :=
  match wk with Idle => 1 | Busy _ => 2 | Stopped => 0 end.

Definition stepsLeft (p : Pool) : nat :=
  2 * List.length (queue p) + list_sum (map workerWeight (workers p)).

(** Let the pool run to completion, lowest active worker first. *)
Fixpoint drain (fuel : nat) (p : Pool) : Pool :=
  match fuel with
  | O => p
  | S fuel' =>
      match firstActive (workers p) with
      | Some i =>
          match workerStep i p with
          | Some p' => drain fuel' p'
          | None => p
          end
      | None => p
      end
  end.

(** The comparator of the final sort. *)
Definition compareResults (a b : DepInfo) : comparison :=
  if negb (Bool.eqb (isDev a) (isDev b))
  then (if isDev a then Gt else Lt)
  else localeCompare (name a) (name b).

(** [[...].join(',')] *)
Definition csvRow (r : DepInfo) : string :=
  String.concat ","
    [ name r; (if isDev r then "true" else "false"); current r;
      orEmpty (latest r); orEmpty (earliestCompat r);
      orEmpty (latestCompat r); orEmpty (peerAngular r);
      orEmpty (versionsBehindLatestCompat r);
      orEmpty (recommendedVersion r); orEmpty (note r);
      orEmpty (migrationLink r) ].

Definition csvHeader : string :=
  "name,isDevDependency,current,latest,earliestCompat,latestCompat,peerAngular,versionsBehindLatestCompat,recommendedVersion,note,migrationLink".

(** [run], up to the start of the workers. *)
Definition runStart : M Pool :=
  let queue0 := depEntries in
  let wc := Nat.min (Pos.to_nat (jobs cfg)) (List.length queue0) in
  modify (setWorkerCount wc) ;;
  when (showProgress cfg) (writeStderr Newlines) ;;
  modify (fun w =>
    setWorkerStatuses (workerStatuses w ++ repeat (Some "idle") wc) w) ;;
  when (showProgress cfg)
    (redrawScreen ;; modify (setDisplayInitialized true)) ;;
  w <- gets (fun w => w) ;;
  ret {| queue := queue0; workers := repeat Idle wc; world := w |}.

(** [run], after [await Promise.all(workers)]. *)
Definition runFinish : M unit :=
  when (showProgress cfg)
    (writeStderr ClearProgress ;;
     w <- gets (fun w => w) ;;
     writeStderr
       (Summary (List.length (results w)) (versionQueries w) (workerCount w)
                (angularMajor cfg) (negb (fastLimit cfg =? 0)%Z)
                (exhaustive cfg))) ;;
  modify (fun w => setResults (sortBy compareResults (results w)) w) ;;
  sortedResults <- gets results ;;
  modify (fun w =>
    setStdout (stdout w ++ csvHeader :: map csvRow sortedResults) w).

(** [run]: the workers move as [schedule] says, then to completion. *)
Definition run (schedule : list nat) : M unit :=
  fun w0 =>
    let (p0, _) := runStart w0 in
    let p1 := runSchedule schedule p0 in
    let p2 := drain (stepsLeft p1) p1 in
    runFinish (world p2).
(* ---------------------------------------------------------------- *)
(** *** The loops read without their effects

    What the loops compute depends on the registry only; these
    definitions say what, and [scanVersions_spec] and
    [processPackage_spec] below prove that the code computes it. *)

(** The Angular peer range that version [v] of package [n] declares. *)
Definition peerOf (n v : string) : option string :=
  angularPeer (viewPeerDeps reg n v).

Fixpoint firstLoopState (n currentClean : string) (vs : list string)
         (st : Scan) : Scan :=
  match vs with
  | [] => st
  | v :: rest =>
      let st' := scanStep currentClean v (peerOf n v) st in
      if earlyExit st' then st'
      else firstLoopState n currentClean rest st'
  end.

Fixpoint firstLoopProbed (n currentClean : string) (vs : list string)
         (st : Scan) : list string :=
  match vs with
  | [] => []
  | v :: rest =>
      let st' := scanStep currentClean v (peerOf n v) st in
      v :: (if earlyExit st' then []
            else firstLoopProbed n currentClean rest st')
  end.

Fixpoint extensionState (n currentClean : string) (vs : list string)
         (st : Scan) : Scan :=
  match vs with
  | [] => st
  | v :: rest =>
      let st' := extendStep currentClean v (peerOf n v) st in
      if String.eqb v currentClean then st'
      else extensionState n currentClean rest st'
  end.

(** The versions up to and including the first [currentClean]. *)
Fixpoint throughCurrent (currentClean : string) (vs : list string)
  : list string :=
  match vs with
  | [] => []
  | v :: rest =>
      v :: (if String.eqb v currentClean then []
            else throughCurrent currentClean rest)
  end.

Definition scanState (n currentClean : string) (versions : list string)
  : Scan :=
  let st := firstLoopState n currentClean (candidateVersions versions)
                           (scanInit versions currentClean) in
  if mustExtend versions st
  then extensionState n currentClean (sliceFrom (versionIndex st) versions) st
  else st.

Definition scanProbed (n currentClean : string) (versions : list string)
  : list string :=
  let st0 := scanInit versions currentClean in
  let st := firstLoopState n currentClean (candidateVersions versions) st0 in
  firstLoopProbed n currentClean (candidateVersions versions) st0
    ++ (if mustExtend versions st
        then throughCurrent currentClean (sliceFrom (versionIndex st) versions)
        else []).

(** Whether [checkAngularCompatibility] queries the registry. *)
Definition heuristicQueries (n : string) : list Cmd :=
  if existsb (fun pkg => startsWith pkg n) angularCompatiblePackages
  then [] else [NpmViewInfo n].

Definition heuristicInfo (n : string) (latestV : option string)
           (versions : list string) : CompatInfo :=
  fst (checkAngularCompatibility n latestV versions 0
         (initialWorld (fun _ => 0%Z))).

(** The [CompatInfo] that [processPackage] holds after the scan. *)
Definition compatInfoFor (n : string) (meta : Meta) (st : Scan) : CompatInfo :=
  if negb (hasAngularPeerDep st)
  then heuristicInfo n (metaVersion meta) (packageVersions meta)
  else {| isCompatible := true; reason := "" |}.

(** The record of an entry. *)
Definition recordFor (entry : DepEntry) : DepInfo :=
  match viewMeta reg (entryName entry) with
  | Some meta =>
      let st := scanState (entryName entry) (stripRange (entryCurrent entry))
                          (packageVersions meta) in
      successRecord entry meta st (compatInfoFor (entryName entry) meta st)
  | None => failureRecord entry
  end.

(** The commands that processing an entry runs. *)
Definition commandsFor (entry : DepEntry) : list Cmd :=
  let n := entryName entry in
  NpmView n ::
  match viewMeta reg n with
  | Some meta =>
      let currentClean := stripRange (entryCurrent entry) in
      let versions := packageVersions meta in
      map (NpmViewPeerDeps n) (scanProbed n currentClean versions)
      ++ (if negb (hasAngularPeerDep (scanState n currentClean versions))
          then heuristicQueries n else [])
  | None => []
  end.

(** The pool at the end of [run], before the summary and the sort. *)
Definition finalPool (schedule : list nat) (w0 : World) : Pool :=
  let p1 := runSchedule schedule (fst (runStart w0)) in
  drain (stepsLeft p1) p1.

(** [if (!peer || satisfiesAngular(peer, angularMajor))] for version [v]. *)
Definition compatibleAt (n v : string) : bool :=
  classifiedCompatible (peerOf n v).

(** The invariant of the pool: what the workers hold, what is queued and
    what has been pushed make up the records of all entries; and while
    entries are queued some worker is still running. *)
Definition poolInv (all : list DepInfo) (p : Pool) : Prop :=
  Permutation
    (results (world p)
       ++ map recordFor (inflight (workers p) ++ queue p))%list
    all
  /\ (queue p = [] \/ allStopped p = false).

End Script.

(** The commands logged between two worlds, and the versions they probe. *)
Definition issued (w w' : World) : list Cmd :=
  skipn (List.length (execLog w)) (execLog w').

Fixpoint probes (cmds : list Cmd) : list string :=
  match cmds with
  | [] => []
  | NpmViewPeerDeps _ v :: rest => v :: probes rest
  | _ :: rest => probes rest
  end.

(** The records pushed between two worlds. *)
Definition pushed (w w' : World) : list DepInfo :=
  skipn (List.length (results w)) (results w').

(** What a computation did to the state that results are read from:
    the records it pushed, the commands it ran, and the two counters. *)
Record effects (w w' : World) (rs : list DepInfo) (cmds : list Cmd)
       (queries done : nat) : Prop := {
  eff_results : results w' = (results w ++ rs)%list;
  eff_log : execLog w' = (execLog w ++ cmds)%list;
  eff_queries : versionQueries w' = versionQueries w + queries;
  eff_finished : finished w' = finished w + done
}.

(** A recommendation that names a version to move to. *)
Definition isUpgrade (recommendation : option string) : bool :=
  (startsWith "#1 Must upgrade to " (orEmpty recommendation)
   || startsWith "#2 Optionally upgrade to " (orEmpty recommendation))%bool.

(** The reading of the recommendation for a package without Angular peer
    requirement as a comparison of the current version with the latest:
    equal, keep; behind, optionally upgrade to the latest; ahead, no
    upgrade. *)
Definition recommendationComparesWithLatest {semver : Semver}
           (cfg : Config) (reg : Registry) (depEntries : list DepEntry)
           (entry : DepEntry) (workerId : nat) (w : World) : Prop :=
  forall meta latestV r,
    viewMeta reg (entryName entry) = Some meta ->
    metaVersion meta = Some latestV ->
    hasAngularPeerDep
      (fst (scanVersions cfg reg depEntries workerId (entryName entry)
              (stripRange (entryCurrent entry)) (packageVersions cfg meta) w))
      = false ->
    pushed w (snd (processPackage cfg reg depEntries entry workerId w)) = [r] ->
    let currentClean := stripRange (entryCurrent entry) in
    (eq currentClean latestV = Some true ->
     recommendedVersion r = Some "#3 Keep current version") /\
    (gt latestV currentClean = Some true ->
     recommendedVersion r = Some ("#2 Optionally upgrade to " ++ latestV)) /\
    (gt currentClean latestV = Some true ->
     isUpgrade (recommendedVersion r) = false).

(** The same flags, with the two display toggles set. *)
Definition withToggles (progress verb : bool) (cfg : Config) : Config := {|
  includePrerelease := includePrerelease cfg;
  showProgress := progress;
  exhaustive := exhaustive cfg;
  verbose := verb;
  fastLimit := fastLimit cfg;
  jobs := jobs cfg;
  angularMajor := angularMajor cfg |}.

(* ------------------------------------------------------------------ *)
(** ** An instance of [Semver] for plain numeric versions

    Versions are [major.minor.patch] in decimal without leading zeros; a
    range is a list of alternatives separated by [ || ], each a list of
    comparators separated by blanks, each an operator among [^ ~ >= <= >
    < =] (or none) before a full version.  Tags, partial versions and
    hyphen ranges are not recognised.  It is used for the scenarios
    below; the theorems hold for every [Semver]. *)
Module NumericSemver.

Definition digitOf (c : ascii) : option Z :=
  let n := nat_of_ascii c in
  if ((48 <=? n)%nat && (n <=? 57)%nat)%bool
  then Some (Z.of_nat (n - 48)) else None.

Fixpoint digitsToZ (s : string) (acc : Z) : option Z :=
  match s with
  | EmptyString => Some acc
  | String c rest =>
    match digitOf c with
    | Some d => digitsToZ rest (acc * 10 + d)%Z
    | None => None
    end
  end.

Definition parseNum (s : string) : option Z :=
  match s with
  | EmptyString => None
  | String "0" (String _ _) => None
  | _ => digitsToZ s 0%Z
  end.

Definition parseVersion (s : string) : option SemVer :=
  match split "." s with
  | [a; b; c] =>
    match parseNum a, parseNum b, parseNum c with
    | Some x, Some y, Some z => Some {| major := x; minor := y; patch := z |}
    | _, _, _ => None
    end
  | _ => None
  end.

Definition compareVersions (a b : SemVer) : comparison :=
  match (major a ?= major b)%Z with
  | Eq => match (minor a ?= minor b)%Z with
        | Eq => (patch a ?= patch b)%Z
        | c => c
        end
  | c => c
  end.

Definition geV (a b : SemVer) : bool :=
  match compareVersions a b with Lt => false | _ => true end.
Definition ltV (a b : SemVer) : bool :=
  match compareVersions a b with Lt => true | _ => false end.

(** The first version past a caret or tilde range. *)
Definition caretBound (v : SemVer) : SemVer :=
  if (0 <? major v)%Z then {| major := major v + 1; minor := 0; patch := 0 |}
  else if (0 <? minor v)%Z then {| major := 0; minor := minor v + 1; patch := 0 |}
  else {| major := 0; minor := 0; patch := patch v + 1 |}.
Definition tildeBound (v : SemVer) : SemVer :=
  {| major := major v; minor := minor v + 1; patch := 0 |}.

Definition withVersion (s : string) (test : SemVer -> bool) : bool :=
  match parseVersion s with Some v => test v | None => false end.

Definition comparatorHolds (x : SemVer) (c : string) : bool :=
  match c with
  | String "^" r => withVersion r (fun v => geV x v && ltV x (caretBound v))
  | String "~" r => withVersion r (fun v => geV x v && ltV x (tildeBound v))
  | String ">" (String "=" r) => withVersion r (fun v => geV x v)
  | String "<" (String "=" r) => withVersion r (fun v => geV v x)
  | String ">" r => withVersion r (fun v => ltV v x)
  | String "<" r => withVersion r (fun v => ltV x v)
  | String "=" r => withVersion r (fun v => geV x v && geV v x)
  | r => withVersion r (fun v => geV x v && geV v x)
  end.

(** The comparators of each alternative. *)
Fixpoint alternatives (tokens : list string) (acc : list string)
  : list (list string) :=
  match tokens with
  | [] => [acc]
  | t :: rest =>
    if String.eqb t "||" then acc :: alternatives rest []
    else if String.eqb t "" then alternatives rest acc
    else alternatives rest (acc ++ [t])
  end.

Definition rangeHolds (x : SemVer) (range : string) : bool :=
  existsb (fun alt =>
           match alt with
           | [] => false
           | _ => forallb (comparatorHolds x) alt
           end)
        (alternatives (split " " range) []).

Definition gtVersions (a b : string) : option bool :=
  match parseVersion a, parseVersion b with
  | Some x, Some y =>
      Some (match compareVersions x y with Gt => true | _ => false end)
  | _, _ => None
  end.

Definition eqVersions (a b : string) : option bool :=
  match parseVersion a, parseVersion b with
  | Some x, Some y =>
      Some (match compareVersions x y with Eq => true | _ => false end)
  | _, _ => None
  end.

Definition isVersion (v : string) : bool :=
  match parseVersion v with Some _ => true | None => false end.

#[export] Instance numeric : Semver.
Proof.
  refine {| valid := isVersion;
            valid_empty := eq_refl;
            prerelease := fun _ => false;
            rcompare := fun a b =>
              match parseVersion a, parseVersion b with
              | Some x, Some y => compareVersions y x
              | _, _ => Eq
              end;
            satisfies := fun v range _ =>
              match parseVersion v with
              | Some x => rangeHolds x range
              | None => false
              end;
            parse := parseVersion;
            eq := eqVersions;
            gt := gtVersions;
            gt_irrefl := _;
            gt_valid := _ |}.
  - intros v. unfold gtVersions.
    destruct (parseVersion v) as [x|]; [|discriminate].
    unfold compareVersions. rewrite !Z.compare_refl. discriminate.
  - intros a b. unfold gtVersions, isVersion.
    destruct (parseVersion a); [reflexivity | discriminate].
Defined.

(** [a.localeCompare(b)] on ASCII strings, by code unit. *)
Definition asciiCompare (a b : string) : comparison := String.compare a b.
End NumericSemver.

(* ------------------------------------------------------------------ *)
(** ** A registry for the scenarios *)
Module Scenario.
Import NumericSemver.

Definition angularOnly (range : string) : option PeerDeps :=
  Some {| peerAngularCore := Some range; peerAngularJs := None |}.
Definition noPeers : option PeerDeps :=
  Some {| peerAngularCore := None; peerAngularJs := None |}.

Definition metaOf (latestV : string) (vs : list string) : option Meta :=
  Some {| metaVersion := Some latestV; metaVersions := Some vs;
          metaHomepage := None; metaRepositoryUrl := None |}.

(** Five published packages; every other name is unknown to the
    registry.
    - [lib-a]: 3.0.0 needs Angular 20, 2.0.0 and 1.0.0 accept 19.
    - [lib-b]: 7.0.0 needs 20, 6.2.0 and 6.0.0 accept 19, 5.0.0 needs 18,
      4.0.0 needs 17.
    - [lib-c]: 2.0.0 needs 20, the query for 1.0.0 fails.
    - [plain]: no peer dependencies, keyword [utility]; 2.0.0 is
      published but the [latest] tag is on 1.9.0.
    - [lonely]: no peer dependencies, and its keyword query fails. *)
Definition registry : Registry := {|
  viewMeta := fun n =>
    if String.eqb n "lib-a" then metaOf "3.0.0" ["1.0.0"; "2.0.0"; "3.0.0"]
    else if String.eqb n "lib-b" then
      metaOf "7.0.0" ["4.0.0"; "5.0.0"; "6.0.0"; "6.2.0"; "7.0.0"]
    else if String.eqb n "lib-c" then metaOf "2.0.0" ["1.0.0"; "2.0.0"]
    else if String.eqb n "plain" then metaOf "1.9.0" ["1.9.0"; "2.0.0"]
    else if String.eqb n "lonely" then metaOf "1.2.0" ["1.2.0"]
    else None;
  viewPeerDeps := fun n v =>
    if String.eqb n "lib-a" then
      if String.eqb v "3.0.0" then angularOnly "^20.0.0"
      else angularOnly "^19.0.0"
    else if String.eqb n "lib-b" then
      if String.eqb v "7.0.0" then angularOnly "^20.0.0"
      else if String.eqb v "5.0.0" then angularOnly "^18.0.0"
      else if String.eqb v "4.0.0" then angularOnly "^17.0.0"
      else angularOnly ">=19.0.0 <20.0.0"
    else if String.eqb n "lib-c" then
      if String.eqb v "2.0.0" then angularOnly "^20.0.0" else None
    else noPeers;
  viewInfo := fun n =>
    if String.eqb n "plain" then
      Some {| infoKeywords := Some ["utility"]; infoDescription := None |}
    else None |}.

(** Target Angular 19, no display. *)
Definition config (fast : Z) (exh : bool) : Config := {|
  includePrerelease := false; showProgress := false; exhaustive := exh;
  verbose := false; fastLimit := fast; jobs := 4; angularMajor := 19 |}.

(** The same, for a project that targets Angular 21. *)
Definition config21 : Config := {|
  includePrerelease := false; showProgress := false; exhaustive := false;
  verbose := false; fastLimit := 0; jobs := 4; angularMajor := 21 |}.

Definition entry (n cur : string) : DepEntry :=
  {| entryName := n; entryCurrent := cur; entryIsDev := false |}.

Definition w0 : World := initialWorld (fun _ => 0%Z).
End Scenario.

(* ------------------------------------------------------------------ *)
(** ** Notions used to state what the script keeps and counts *)

(** The computation [c] leaves the observation [f] of the world as it
    was. *)
Definition keeps {A T : Type} (f : World -> T) (c : M A) : Prop :=
  forall w, f (snd (c w)) = f w.

(** The packages whose metadata the commands ask for. *)
Fixpoint metaQueries (cmds : list Cmd) : list string :=
  match cmds with
  | [] => []
  | NpmView n :: rest => n :: metaQueries rest
  | _ :: rest => metaQueries rest
  end.

(** The occurrences of a character in a string. *)
Fixpoint countChar (c : ascii) (s : string) : nat :=
  match s with
  | EmptyString => 0
  | String d rest => (if Ascii.eqb c d then 1 else 0) + countChar c rest
  end.

(** The columns of a row, as [csvRow] joins them. *)
Definition csvFields (r : DepInfo) : list string :=
  [ name r; (if isDev r then "true" else "false"); current r;
    orEmpty (latest r); orEmpty (earliestCompat r);
    orEmpty (latestCompat r); orEmpty (peerAngular r);
    orEmpty (versionsBehindLatestCompat r);
    orEmpty (recommendedVersion r); orEmpty (note r);
    orEmpty (migrationLink r) ].

(** The books of the pool: the finished counter and the entries still
    queued or held by a worker add up to [n0]; the metadata queries
    logged and the names of those entries make up [names]; and the query
    counter counts the peer queries logged. *)
Definition books (n0 : nat) (names : list string) (p : Pool) : Prop :=
  finished (world p) + List.length (inflight (workers p) ++ queue p) = n0 /\
  Permutation
    (metaQueries (execLog (world p))
       ++ map entryName (inflight (workers p) ++ queue p))%list names /\
  versionQueries (world p) = List.length (probes (execLog (world p))).

(** What the display reads and writes. *)
Definition displayState (w : World)
  : list StderrItem * nat * Z * bool * list (option string) :=
  (stderr w, clockReads w, lastRedrawTime w, displayInitialized w,
   workerStatuses w).

(* ------------------------------------------------------------------ *)
(** ** Lists, sorting and the state monad *)

Lemma bind_run {A B} (c : M A) (k : A -> M B) (w : World) :
  bind c k w = k (fst (c w)) (snd (c w)).
Proof. unfold bind. destruct (c w); reflexivity. Qed.

Lemma effects_refl (w : World) : effects w w [] [] 0 0.
Proof. split; rewrite ?app_nil_r; auto. Qed.

Lemma effects_trans w w1 w2 r1 r2 c1 c2 q1 q2 f1 f2 :
  effects w w1 r1 c1 q1 f1 -> effects w1 w2 r2 c2 q2 f2 ->
  effects w w2 (r1 ++ r2)%list (c1 ++ c2)%list (q1 + q2) (f1 + f2).
Proof.
  intros [Ha Hb Hc Hd] [Ha' Hb' Hc' Hd']. split.
  - rewrite Ha', Ha, app_assoc; reflexivity.
  - rewrite Hb', Hb, app_assoc; reflexivity.
  - lia.
  - lia.
Qed.

Lemma effects_quiet w w' :
  effects w w' [] [] 0 0 ->
  results w' = results w /\ execLog w' = execLog w /\
  versionQueries w' = versionQueries w /\ finished w' = finished w.
Proof.
  intros [Ha Hb Hc Hd]. rewrite app_nil_r in Ha, Hb.
  rewrite Nat.add_0_r in Hc, Hd. auto.
Qed.

Lemma effects_logged w w1 c :
  effects w w1 [] [] 0 0 ->
  effects w (setExecLog (execLog w1 ++ [c]) w1) [] [c] 0 0.
Proof.
  intros H. apply effects_quiet in H. destruct H as (Ha & Hb & Hc & Hd).
  split; simpl; rewrite ?app_nil_r, ?Nat.add_0_r; congruence.
Qed.

Lemma insertSorted_perm {A} (cmp : A -> A -> comparison) x xs :
  Permutation (insertSorted cmp x xs) (x :: xs).
Proof.
  induction xs as [|y ys IH]; simpl; auto.
  destruct (cmp x y); auto.
  rewrite IH. apply perm_swap.
Qed.

Lemma sortBy_perm {A} (cmp : A -> A -> comparison) xs :
  Permutation (sortBy cmp xs) xs.
Proof.
  induction xs as [|x xs IH]; simpl; auto.
  rewrite insertSorted_perm. auto.
Qed.

Lemma issued_app w w' cmds :
  execLog w' = (execLog w ++ cmds)%list -> issued w w' = cmds.
Proof.
  intros H. unfold issued. rewrite H.
  rewrite skipn_app, skipn_all, Nat.sub_diag. reflexivity.
Qed.

Lemma pushed_app w w' rs :
  results w' = (results w ++ rs)%list -> pushed w w' = rs.
Proof.
  intros H. unfold pushed. rewrite H.
  rewrite skipn_app, skipn_all, Nat.sub_diag. reflexivity.
Qed.

Lemma probes_peerDeps n vs : probes (map (NpmViewPeerDeps n) vs) = vs.
Proof. induction vs; simpl; congruence. Qed.

Lemma probes_app c1 c2 :
  probes (c1 ++ c2)%list = (probes c1 ++ probes c2)%list.
Proof.
  induction c1 as [|c c1 IH]; simpl; auto.
  destruct c; simpl; rewrite ?IH; reflexivity.
Qed.

(* ------------------------------------------------------------------ *)
(** ** What the functions of the script do *)

Unset Implicit Arguments.

Section Facts.
Context {semver : Semver}.
Variable localeCompare : string -> string -> comparison.
Variable cfg : Config.
Variable reg : Registry.
Variable depEntries : list DepEntry.

(** The status display touches neither results, log nor counters. *)
Lemma redrawScreen_quiet w :
  effects w (snd (redrawScreen cfg depEntries w)) [] [] 0 0.
Proof.
  unfold redrawScreen. destruct (showProgress cfg); simpl.
  - split; simpl; rewrite ?app_nil_r; auto.
  - apply effects_refl.
Qed.

Lemma updateWorkerStatus_quiet i s w :
  effects w (snd (updateWorkerStatus cfg depEntries i s w)) [] [] 0 0.
Proof.
  unfold updateWorkerStatus.
  rewrite bind_run. simpl.
  destruct (negb (showProgress cfg) || negb (displayInitialized w))%bool.
  - apply effects_refl.
  - repeat (rewrite bind_run; simpl).
    match goal with |- context [if ?c then _ else _] => destruct c end.
    + rewrite bind_run; simpl.
      match goal with |- effects _ (snd (redrawScreen _ _ ?w1)) _ _ _ _ =>
        pose proof (redrawScreen_quiet w1) as H end.
      destruct H as [Ha Hb Hc Hd]. simpl in *.
      split; simpl; congruence.
    + simpl. split; simpl; rewrite ?app_nil_r; auto.
Qed.

Lemma queryPeer_spec n v w :
  fst (queryPeer reg n v w) = peerOf reg n v /\
  effects w (snd (queryPeer reg n v w)) [] [NpmViewPeerDeps n v] 1 0.
Proof.
  unfold queryPeer, execPeerDeps, peerOf.
  repeat (rewrite bind_run; simpl). split; [reflexivity|].
  split; simpl; rewrite ?app_nil_r; auto; lia.
Qed.

(** The first loop computes [firstLoopState] and probes
    [firstLoopProbed], one counted query per probe. *)
Lemma scanLoop_spec i n cc vs : forall st w,
  fst (scanLoop cfg reg depEntries i n cc vs st w)
    = firstLoopState cfg reg n cc vs st /\
  effects w (snd (scanLoop cfg reg depEntries i n cc vs st w)) []
    (map (NpmViewPeerDeps n) (firstLoopProbed cfg reg n cc vs st))
    (List.length (firstLoopProbed cfg reg n cc vs st)) 0.
Proof.
  induction vs as [|v rest IH]; intros st w.
  - simpl. split; [reflexivity | apply effects_refl].
  - cbn [scanLoop firstLoopState firstLoopProbed].
    rewrite bind_run.
    pose proof (updateWorkerStatus_quiet i ("scan " ++ n ++ "@" ++ v) w) as Hu.
    set (w1 := snd (updateWorkerStatus cfg depEntries i _ w)) in *.
    rewrite bind_run.
    destruct (queryPeer_spec n v w1) as [Hp Hq].
    rewrite Hp.
    set (w2 := snd (queryPeer reg n v w1)) in *.
    pose proof (effects_trans Hu Hq) as H12. simpl in H12.
    destruct (earlyExit cfg (scanStep cfg cc v (peerOf reg n v) st)).
    + simpl. split; [reflexivity | exact H12].
    + destruct (IH (scanStep cfg cc v (peerOf reg n v) st) w2) as [Hs He].
      split; [exact Hs|].
      pose proof (effects_trans H12 He) as H. simpl in H. exact H.
Qed.

(** The extension loop computes [extensionState] and probes the
    remaining versions through the current one. *)
Lemma extendLoop_spec i n cc vs : forall st w,
  fst (extendLoop cfg reg depEntries i n cc vs st w)
    = extensionState cfg reg n cc vs st /\
  effects w (snd (extendLoop cfg reg depEntries i n cc vs st w)) []
    (map (NpmViewPeerDeps n) (throughCurrent cc vs))
    (List.length (throughCurrent cc vs)) 0.
Proof.
  induction vs as [|v rest IH]; intros st w.
  - simpl. split; [reflexivity | apply effects_refl].
  - cbn [extendLoop extensionState throughCurrent].
    rewrite bind_run.
    pose proof (updateWorkerStatus_quiet i
                  ("scan " ++ n ++ "@" ++ v ++ " (extended)") w) as Hu.
    set (w1 := snd (updateWorkerStatus cfg depEntries i _ w)) in *.
    rewrite bind_run.
    destruct (queryPeer_spec n v w1) as [Hp Hq].
    rewrite Hp.
    set (w2 := snd (queryPeer reg n v w1)) in *.
    pose proof (effects_trans Hu Hq) as H12. simpl in H12.
    destruct (String.eqb v cc).
    + simpl. split; [reflexivity | exact H12].
    + destruct (IH (extendStep cfg cc v (peerOf reg n v) st) w2) as [Hs He].
      split; [exact Hs|].
      pose proof (effects_trans H12 He) as H. simpl in H. exact H.
Qed.

(** Both loops: the state is [scanState], the probes are [scanProbed]. *)
Lemma scanVersions_spec i n cc versions w :
  fst (scanVersions cfg reg depEntries i n cc versions w)
    = scanState cfg reg n cc versions /\
  effects w (snd (scanVersions cfg reg depEntries i n cc versions w)) []
    (map (NpmViewPeerDeps n) (scanProbed cfg reg n cc versions))
    (List.length (scanProbed cfg reg n cc versions)) 0.
Proof.
  unfold scanVersions, scanState, scanProbed.
  rewrite bind_run.
  destruct (scanLoop_spec i n cc (candidateVersions cfg versions)
              (scanInit cfg versions cc) w) as [Hs He].
  rewrite Hs.
  set (st := firstLoopState cfg reg n cc _ _) in *.
  set (w1 := snd (scanLoop cfg reg depEntries i n cc _ _ w)) in *.
  destruct (mustExtend cfg versions st).
  - rewrite bind_run.
    pose proof (updateWorkerStatus_quiet i
      ("extending search for " ++ n ++ " to find current version") w1) as Hu.
    set (w2 := snd (updateWorkerStatus cfg depEntries i _ w1)) in *.
    destruct (extendLoop_spec i n cc (sliceFrom (versionIndex st) versions)
                st w2) as [Hx Hy].
    split; [exact Hx|].
    pose proof (effects_trans (effects_trans He Hu) Hy) as H.
    simpl in H. rewrite !app_nil_r in H.
    rewrite map_app, length_app. rewrite Nat.add_0_r in H.
    exact H.
  - simpl. split; [reflexivity|].
    rewrite !app_nil_r. exact He.
Qed.

(** The heuristic check answers from the registry alone and runs at most
    one command. *)
Lemma checkAngularCompatibility_spec n latestV versions i w :
  fst (checkAngularCompatibility cfg reg depEntries n latestV versions i w)
    = heuristicInfo cfg reg depEntries n latestV versions /\
  effects w
    (snd (checkAngularCompatibility cfg reg depEntries n latestV versions i w))
    [] (heuristicQueries n) 0 0.
Proof.
  unfold heuristicInfo, heuristicQueries, checkAngularCompatibility.
  destruct (existsb (fun pkg => startsWith pkg n) angularCompatiblePackages).
  - simpl. split; [reflexivity | apply effects_refl].
  - rewrite !bind_run.
    pose proof (updateWorkerStatus_quiet i ("checking Angular compat " ++ n) w)
      as Hu.
    set (w1 := snd (updateWorkerStatus cfg depEntries i _ w)) in *.
    set (w0 := snd (updateWorkerStatus cfg depEntries 0 _ _)).
    unfold execInfo. rewrite !bind_run. simpl.
    assert (He : effects w (setExecLog (execLog w1 ++ [NpmViewInfo n]) w1)
                   [] [NpmViewInfo n] 0 0).
    { apply effects_logged, Hu. }
    destruct (viewInfo reg n) as [packageInfo|]; simpl.
    + repeat match goal with
             | |- context [if ?c then _ else _] => destruct c
             | |- context [match ?c with Some _ => _ | None => _ end] =>
                 destruct c
             end; simpl; split; auto.
    + split; auto.
Qed.

(** [processPackage] pushes exactly the record of its entry, runs the
    commands of that entry, and counts it as finished. *)
Lemma processPackage_spec entry i w :
  effects w (snd (processPackage cfg reg depEntries entry i w))
    [recordFor cfg reg depEntries entry]
    (commandsFor cfg reg entry)
    (List.length (probes (commandsFor cfg reg entry))) 1.
Proof.
  unfold processPackage, recordFor, commandsFor.
  rewrite bind_run.
  pose proof (updateWorkerStatus_quiet i ("meta " ++ entryName entry) w) as Hu.
  set (w1 := snd (updateWorkerStatus cfg depEntries i _ w)) in *.
  unfold execMeta. rewrite !bind_run. simpl.
  set (w2 := setExecLog (execLog w1 ++ [NpmView (entryName entry)]) w1).
  assert (H2 : effects w w2 [] [NpmView (entryName entry)] 0 0).
  { apply effects_logged, Hu. }
  destruct (viewMeta reg (entryName entry)) as [meta|].
  - rewrite !bind_run.
    destruct (scanVersions_spec i (entryName entry)
                (stripRange (entryCurrent entry)) (packageVersions cfg meta) w2)
      as [Hs He].
    rewrite Hs.
    set (st := scanState cfg reg (entryName entry) _ _) in *.
    set (w3 := snd (scanVersions cfg reg depEntries i _ _ _ w2)) in *.
    assert (Hi : exists w4,
      (if negb (hasAngularPeerDep st)
       then checkAngularCompatibility cfg reg depEntries (entryName entry)
              (metaVersion meta) (packageVersions cfg meta) i
       else ret {| isCompatible := true; reason := "" |}) w3
      = (compatInfoFor cfg reg depEntries (entryName entry) meta st, w4) /\
      effects w3 w4 []
        (if negb (hasAngularPeerDep st)
         then heuristicQueries (entryName entry) else []) 0 0).
    { unfold compatInfoFor. destruct (negb (hasAngularPeerDep st)).
      - destruct (checkAngularCompatibility_spec (entryName entry)
                    (metaVersion meta) (packageVersions cfg meta) i w3)
          as [Hf Hg].
        eexists. split; [rewrite <- Hf; apply surjective_pairing|].
        exact Hg.
      - eexists. split; [reflexivity | apply effects_refl]. }
    destruct Hi as (w4 & Hrun & H4). rewrite Hrun. simpl.
    set (rec := successRecord cfg entry meta st _).
    assert (H5 : effects w4 (setResults (results w4 ++ [rec]) w4)
                   [rec] [] 0 0).
    { split; simpl; rewrite ?app_nil_r; auto. }
    set (w5 := setResults (results w4 ++ [rec]) w4) in *.
    assert (H6 : effects w5
      (snd (when (verbose cfg)
              (updateWorkerStatus cfg depEntries i
                 ("OK: " ++ entryName entry ++ " -> "
                    ++ tpl (jsOr (latestCompatOf st) (Some "none")))) w5))
      [] [] 0 0).
    { unfold when. destruct (verbose cfg);
        [apply updateWorkerStatus_quiet | apply effects_refl]. }
    set (w6 := snd (when _ _ w5)) in *.
    pose proof (effects_trans (effects_trans (effects_trans
                  (effects_trans H2 He) H4) H5) H6) as H.
    simpl in H. rewrite !app_nil_r in H.
    rewrite probes_app, probes_peerDeps.
    assert (Hh : probes (if negb (hasAngularPeerDep st)
                         then heuristicQueries (entryName entry) else [])
                 = []).
    { unfold heuristicQueries.
      destruct (negb (hasAngularPeerDep st)); auto.
      destruct (existsb _ _); reflexivity. }
    rewrite Hh, app_nil_r.
    destruct H as [Ha Hb Hc Hd].
    split; unfold setFinished; cbn [results execLog versionQueries finished];
      [exact Ha | exact Hb | rewrite Hc; lia | rewrite Hd; lia].
  - rewrite !bind_run. cbn [modify pushResult fst snd].
    set (rec := failureRecord entry).
    set (w5 := setResults (results w2 ++ [rec]) w2).
    assert (H5 : effects w2 w5 [rec] [] 0 0).
    { split; simpl; rewrite ?app_nil_r; auto. }
    assert (H6 : effects w5
      (snd (when (verbose cfg)
              (updateWorkerStatus cfg depEntries i
                 ("FAIL: " ++ entryName entry)) w5)) [] [] 0 0).
    { unfold when. destruct (verbose cfg);
        [apply updateWorkerStatus_quiet | apply effects_refl]. }
    set (w6 := snd (when _ _ w5)) in *.
    pose proof (effects_trans (effects_trans H2 H5) H6) as H.
    simpl in H.
    destruct H as [Ha Hb Hc Hd].
    split; unfold setFinished; cbn [results execLog versionQueries finished];
      [exact Ha | exact Hb | rewrite Hc; simpl; lia | rewrite Hd; lia].
Qed.

(* ---------------------------------------------------------------- *)
(** *** The worker pool *)

Lemma setWorker_inflight i x : forall ws old,
  nth_error ws i = Some old ->
  Permutation (busyWith old ++ inflight (setWorker i x ws))
              (busyWith x ++ inflight ws).
Proof.
  induction i as [|i IH]; intros [|h t] old Hn; simpl in Hn; try discriminate.
  - inversion Hn; subst. simpl.
    rewrite !app_assoc. apply Permutation_app_tail, Permutation_app_comm.
  - simpl. specialize (IH t old Hn).
    rewrite (Permutation_app_swap_app (busyWith old)), IH.
    apply Permutation_app_swap_app.
Qed.

Lemma setWorker_weight i x : forall ws old,
  nth_error ws i = Some old ->
  list_sum (map workerWeight (setWorker i x ws)) + workerWeight old
  = list_sum (map workerWeight ws) + workerWeight x.
Proof.
  induction i as [|i IH]; intros [|h t] old Hn; simpl in Hn; try discriminate.
  - inversion Hn; subst. simpl. lia.
  - simpl. specialize (IH t old Hn). lia.
Qed.

Lemma setWorker_active i x : forall ws old,
  nth_error ws i = Some old -> isStopped x = false ->
  forallb isStopped (setWorker i x ws) = false.
Proof.
  induction i as [|i IH]; intros [|h t] old Hn Hx; simpl in Hn;
    try discriminate; simpl.
  - rewrite Hx. reflexivity.
  - rewrite (IH t old Hn Hx). apply andb_false_r.
Qed.

Lemma allStopped_inflight ws :
  forallb isStopped ws = true -> inflight ws = [].
Proof.
  induction ws as [|h t IH]; simpl; auto.
  intros H. apply andb_prop in H. destruct H as [Hh Ht].
  destruct h; try discriminate. simpl. auto.
Qed.

Lemma firstActive_some ws : forall i,
  firstActive ws = Some i ->
  exists wk, nth_error ws i = Some wk /\ isStopped wk = false.
Proof.
  induction ws as [|h t IH]; simpl; intros i H; try discriminate.
  destruct (isStopped h) eqn:Hh.
  - destruct (firstActive t) as [j|]; simpl in H; try discriminate.
    inversion H; subst. apply (IH j eq_refl).
  - inversion H; subst. exists h. auto.
Qed.

Lemma firstActive_none ws :
  firstActive ws = None -> forallb isStopped ws = true.
Proof.
  induction ws as [|h t IH]; simpl; auto.
  destruct (isStopped h); try discriminate.
  destruct (firstActive t); simpl; try discriminate. auto.
Qed.

Lemma weightless_stopped ws :
  list_sum (map workerWeight ws) = 0 -> forallb isStopped ws = true.
Proof.
  induction ws as [|h t IH]; simpl; auto.
  destruct h; simpl; intros H; try lia. auto.
Qed.

Lemma workerStep_inv all i p p' :
  workerStep cfg reg depEntries i p = Some p' ->
  poolInv cfg reg depEntries all p -> poolInv cfg reg depEntries all p' /\ stepsLeft p = S (stepsLeft p').
Proof.
  unfold workerStep, poolInv, stepsLeft, allStopped.
  destruct (nth_error (workers p) i) as [[|entry|]|] eqn:Hn;
    try discriminate.
  - destruct (queue p) as [|entry rest] eqn:Hq; intros H; inversion H;
      subst; clear H; simpl; intros [Hp Ha].
    + pose proof (updateWorkerStatus_quiet i "Finished." (world p)) as Hu.
      apply effects_quiet in Hu. destruct Hu as (Hr & _).
      pose proof (setWorker_inflight i Stopped _ _ Hn) as Hi.
      pose proof (setWorker_weight i Stopped _ _ Hn) as Hw.
      simpl in Hi, Hw.
      split; [split; [|left; reflexivity] | lia].
      rewrite Hr. rewrite !app_nil_r in *.
      rewrite Hi. exact Hp.
    + pose proof (setWorker_inflight i (Busy entry) _ _ Hn) as Hi.
      pose proof (setWorker_weight i (Busy entry) _ _ Hn) as Hw.
      simpl in Hi, Hw.
      split; [split | lia].
      * rewrite <- Hp. apply Permutation_app_head, Permutation_map.
        rewrite Hi. simpl. apply Permutation_middle.
      * right. eapply setWorker_active; [exact Hn | reflexivity].
  - intros H; inversion H; subst; clear H; simpl; intros [Hp Ha].
    pose proof (processPackage_spec entry i (world p)) as He.
    destruct He as [Hr _ _ _].
    pose proof (setWorker_inflight i Idle _ _ Hn) as Hi.
    pose proof (setWorker_weight i Idle _ _ Hn) as Hw.
    simpl in Hi, Hw.
    split; [split | lia].
    + rewrite <- Hp, Hr, <- app_assoc.
      apply Permutation_app_head. simpl.
      change (recordFor cfg reg depEntries entry
                :: map (recordFor cfg reg depEntries)
                     (inflight (setWorker i Idle (workers p)) ++ queue p))
        with (map (recordFor cfg reg depEntries)
                ((entry :: inflight (setWorker i Idle (workers p)))
                   ++ queue p)).
      apply Permutation_map, Permutation_app_tail. exact Hi.
    + right. eapply setWorker_active; [exact Hn | reflexivity].
Qed.

Lemma runSchedule_inv all schedule : forall p,
  poolInv cfg reg depEntries all p -> poolInv cfg reg depEntries all (runSchedule cfg reg depEntries schedule p).
Proof.
  induction schedule as [|i rest IH]; intros p Hp; simpl; auto.
  destruct (workerStep cfg reg depEntries i p) as [p'|] eqn:Hs; auto.
  apply IH. eapply workerStep_inv; eauto.
Qed.

Lemma workerStep_active i p wk :
  nth_error (workers p) i = Some wk -> isStopped wk = false ->
  exists p', workerStep cfg reg depEntries i p = Some p'.
Proof.
  intros Hn Hw. unfold workerStep. rewrite Hn.
  destruct wk; try discriminate.
  - destruct (queue p); eauto.
  - eauto.
Qed.

(** With the steps that are left as fuel, the pool runs to completion. *)
Lemma drain_complete all fuel : forall p,
  stepsLeft p = fuel -> poolInv cfg reg depEntries all p ->
  poolInv cfg reg depEntries all (drain cfg reg depEntries fuel p) /\
  allStopped (drain cfg reg depEntries fuel p) = true.
Proof.
  induction fuel as [|fuel IH]; intros p Hf Hp; simpl.
  - split; auto. apply weightless_stopped.
    unfold stepsLeft in Hf. lia.
  - destruct (firstActive (workers p)) as [i|] eqn:Ha.
    + destruct (firstActive_some _ _ Ha) as (wk & Hn & Hw).
      destruct (workerStep_active i p wk Hn Hw) as (p' & Hs).
      rewrite Hs.
      destruct (workerStep_inv all i p p' Hs Hp) as [Hp' Hl].
      apply IH; auto. lia.
    + split; auto. apply firstActive_none, Ha.
Qed.

Lemma poolInv_done all p :
  poolInv cfg reg depEntries all p -> allStopped p = true ->
  Permutation (results (world p)) all.
Proof.
  intros [Hp [Hq|Hq]] Hs; [|congruence].
  rewrite Hq, (allStopped_inflight _ Hs) in Hp.
  simpl in Hp. rewrite app_nil_r in Hp. exact Hp.
Qed.

(* ---------------------------------------------------------------- *)
(** *** The two scanning loops *)

Lemma includesStr_app x a b :
  includesStr x (a ++ b) = (includesStr x a || includesStr x b)%bool.
Proof. apply existsb_app. Qed.

Lemma includesStr_In x xs : includesStr x xs = true <-> In x xs.
Proof.
  unfold includesStr. rewrite existsb_exists. split.
  - intros (y & Hy & He). apply String.eqb_eq in He. subst. exact Hy.
  - intros H. exists x. split; [exact H | apply String.eqb_refl].
Qed.

(** The loop variables after the first loop, from the versions probed. *)
Lemma firstLoop_facts n cc vs : forall st,
  let st' := firstLoopState cfg reg n cc vs st in
  let probed := firstLoopProbed cfg reg n cc vs st in
  hasAngularPeerDep st'
    = (hasAngularPeerDep st
       || existsb (fun v => truthy (peerOf reg n v)) probed)%bool /\
  versionIndex st' = versionIndex st + List.length probed /\
  currentVersionFound st'
    = (currentVersionFound st || includesStr cc probed)%bool /\
  compatVersions st'
    = (compatVersions st ++ filter (compatibleAt cfg reg n) probed)%list.
Proof.
  induction vs as [|v rest IH]; intros st; cbn zeta.
  - simpl. rewrite !orb_false_r, app_nil_r, Nat.add_0_r. auto.
  - cbn [firstLoopState firstLoopProbed].
    set (s1 := scanStep cfg cc v (peerOf reg n v) st).
    assert (H1 : hasAngularPeerDep s1
                 = (hasAngularPeerDep st || truthy (peerOf reg n v))%bool).
    { unfold s1, scanStep; simpl.
      destruct (truthy (peerOf reg n v)), (hasAngularPeerDep st); reflexivity. }
    assert (H2 : versionIndex s1 = versionIndex st + 1).
    { unfold s1, scanStep; simpl. lia. }
    assert (H3 : currentVersionFound s1
                 = (currentVersionFound st || String.eqb cc v)%bool).
    { unfold s1, scanStep; simpl. rewrite (String.eqb_sym cc v).
      destruct (String.eqb v cc), (currentVersionFound st); reflexivity. }
    assert (H4 : compatVersions s1
                 = (compatVersions st
                      ++ (if compatibleAt cfg reg n v then [v] else []))%list).
    { unfold s1, scanStep, compatibleAt; simpl.
      destruct (classifiedCompatible cfg (peerOf reg n v));
        rewrite ?app_nil_r; reflexivity. }
    destruct (earlyExit cfg s1).
    + rewrite H1, H2, H3, H4. clearbody s1.
      simpl. rewrite !orb_false_r. auto.
    + specialize (IH s1). cbn zeta in IH.
      destruct IH as (Ia & Ib & Ic & Id).
      rewrite Ia, Ib, Ic, Id, H1, H2, H3, H4. clearbody s1.
      simpl. rewrite !orb_assoc, <- !app_assoc.
      repeat split; try lia.
      destruct (compatibleAt cfg reg n v); reflexivity.
Qed.

(** Once a probed version has declared an Angular peer requirement the
    first loop no longer breaks: it probes every candidate. *)
Lemma firstLoop_formal_probes_all n cc vs : forall st,
  hasAngularPeerDep (firstLoopState cfg reg n cc vs st) = true ->
  firstLoopProbed cfg reg n cc vs st = vs.
Proof.
  induction vs as [|v rest IH]; intros st H; auto.
  cbn [firstLoopState firstLoopProbed] in *.
  destruct (earlyExit cfg (scanStep cfg cc v (peerOf reg n v) st)) eqn:He.
  - unfold earlyExit in He. rewrite H in He. simpl in He.
    rewrite andb_false_r in He. discriminate.
  - rewrite (IH _ H). reflexivity.
Qed.

Lemma firstLoopProbed_prefix n cc vs : forall st,
  exists rest, vs = (firstLoopProbed cfg reg n cc vs st ++ rest)%list.
Proof.
  induction vs as [|v vs IH]; intros st.
  - exists []. reflexivity.
  - cbn [firstLoopProbed].
    destruct (earlyExit cfg (scanStep cfg cc v (peerOf reg n v) st)).
    + exists vs. reflexivity.
    + destruct (IH (scanStep cfg cc v (peerOf reg n v) st)) as (r & Hr).
      exists r. simpl. rewrite <- Hr. reflexivity.
Qed.

(** The loop variables after the extension loop. *)
Lemma extension_facts n cc vs : forall st,
  let st' := extensionState cfg reg n cc vs st in
  hasAngularPeerDep st' = hasAngularPeerDep st /\
  compatVersions st'
    = (compatVersions st
         ++ filter (compatibleAt cfg reg n) (throughCurrent cc vs))%list.
Proof.
  induction vs as [|v rest IH]; intros st; cbn zeta.
  - simpl. rewrite app_nil_r. auto.
  - cbn [extensionState throughCurrent].
    set (s1 := extendStep cfg cc v (peerOf reg n v) st).
    assert (H4 : compatVersions s1
                 = (compatVersions st
                      ++ (if compatibleAt cfg reg n v then [v] else []))%list).
    { unfold s1, extendStep, compatibleAt; simpl.
      destruct (classifiedCompatible cfg (peerOf reg n v));
        rewrite ?app_nil_r; reflexivity. }
    assert (H1 : hasAngularPeerDep s1 = hasAngularPeerDep st)
      by reflexivity.
    destruct (String.eqb v cc).
    + rewrite H1, H4. clearbody s1. split; [reflexivity|].
      simpl. destruct (compatibleAt cfg reg n v); reflexivity.
    + specialize (IH s1). cbn zeta in IH. destruct IH as (Ia & Ib).
      rewrite Ia, Ib, H1, H4. clearbody s1. split; [reflexivity|].
      simpl. rewrite <- app_assoc.
      destruct (compatibleAt cfg reg n v); reflexivity.
Qed.

(** The compatible list is the probed versions that were classified
    compatible, in the order probed. *)
Lemma scanState_compat n cc versions :
  compatVersions (scanState cfg reg n cc versions)
  = filter (compatibleAt cfg reg n) (scanProbed cfg reg n cc versions).
Proof.
  unfold scanState, scanProbed.
  destruct (firstLoop_facts n cc (candidateVersions cfg versions)
              (scanInit cfg versions cc)) as (_ & _ & _ & Hc).
  set (st := firstLoopState cfg reg n cc _ _) in *.
  destruct (mustExtend cfg versions st).
  - destruct (extension_facts n cc (sliceFrom (versionIndex st) versions) st)
      as (_ & Hx).
    rewrite Hx, Hc, filter_app. reflexivity.
  - rewrite Hc, app_nil_r. reflexivity.
Qed.

(** The probes that [scanVersions] logs are [scanProbed]. *)
Lemma scanVersions_probes i n cc versions w :
  probes (issued w (snd (scanVersions cfg reg depEntries i n cc versions w)))
  = scanProbed cfg reg n cc versions.
Proof.
  destruct (scanVersions_spec i n cc versions w) as [_ [_ Hl _ _]].
  rewrite (issued_app _ _ _ Hl). apply probes_peerDeps.
Qed.

Lemma scanLoop_probes i n cc vs st w :
  probes (issued w (snd (scanLoop cfg reg depEntries i n cc vs st w)))
  = firstLoopProbed cfg reg n cc vs st.
Proof.
  destruct (scanLoop_spec i n cc vs st w) as [_ [_ Hl _ _]].
  rewrite (issued_app _ _ _ Hl). apply probes_peerDeps.
Qed.

(** C2.  When the scan under a fast limit has probed its candidates
    without meeting the current version, and one of the versions it
    probed declared an Angular peer requirement, then it has probed the
    whole limited prefix, and [scanVersions] goes on from there through
    the remaining versions, up to and including the current version, or
    to the end of the list when the current version is not in it. *)
Theorem extension_resumes_until_current i n cc versions w :
  (0 < fastLimit cfg)%Z ->
  let limited :=
    scanLoop cfg reg depEntries i n cc (candidateVersions cfg versions)
             (scanInit cfg versions cc) w in
  let probedFirst := probes (issued w (snd limited)) in
  ~ In cc probedFirst ->
  (exists v, In v probedFirst /\ truthy (peerOf reg n v) = true) ->
  probedFirst = sliceTo (fastLimit cfg) versions /\
  probes (issued w (snd (scanVersions cfg reg depEntries i n cc versions w)))
  = (probedFirst
       ++ throughCurrent cc (sliceFrom (List.length probedFirst) versions))%list.
Proof.
  intros Hfast limited probedFirst Hnot Hformal.
  subst probedFirst limited.
  rewrite scanLoop_probes in *. rewrite scanVersions_probes.
  apply Z.ltb_lt in Hfast.
  destruct (firstLoop_facts n cc (candidateVersions cfg versions)
              (scanInit cfg versions cc)) as (Ha & Hb & Hc & _).
  set (probed := firstLoopProbed cfg reg n cc _ _) in *.
  assert (Hpeer : hasAngularPeerDep
                    (firstLoopState cfg reg n cc (candidateVersions cfg versions)
                       (scanInit cfg versions cc)) = true).
  { rewrite Ha. apply orb_true_iff. right. apply existsb_exists. exact Hformal. }
  assert (Hall : probed = candidateVersions cfg versions).
  { apply firstLoop_formal_probes_all. exact Hpeer. }
  assert (Hcand : candidateVersions cfg versions
                  = sliceTo (fastLimit cfg) versions).
  { unfold candidateVersions. rewrite Hfast. reflexivity. }
  split; [congruence|].
  unfold scanProbed. fold probed.
  set (st := firstLoopState cfg reg n cc _ _) in *.
  assert (Hfound : currentVersionFound st = false).
  { rewrite Hc. unfold scanInit; cbn [currentVersionFound].
    rewrite Hfast, <- Hall, orb_diag.
    destruct (includesStr cc probed) eqn:Hi; auto.
    apply includesStr_In in Hi. contradiction. }
  assert (Hidx : versionIndex st = List.length probed).
  { rewrite Hb. reflexivity. }
  unfold mustExtend. rewrite Hpeer, Hfound, Hfast, Hidx. cbn [negb andb].
  destruct (List.length probed <? List.length versions)%nat eqn:Hlt; auto.
  apply Nat.ltb_ge in Hlt. unfold sliceFrom.
  rewrite (skipn_all2 versions Hlt). reflexivity.
Qed.

(** C3.  Without [--exhaustive], the first loop returns as soon as no
    probed version has declared an Angular peer requirement and one
    version is in the compatible list; so when the newest version
    declares none, the scan probes that version and no other, under any
    fast limit, and counts one query. *)
Theorem early_exit_without_peer i n cc w :
  exhaustive cfg = false ->
  (forall v rest st,
     let st' := scanStep cfg cc v (peerOf reg n v) st in
     let r := scanLoop cfg reg depEntries i n cc (v :: rest) st w in
     hasAngularPeerDep st' = false -> compatVersions st' <> [] ->
     fst r = st' /\ probes (issued w (snd r)) = [v]) /\
  (forall v rest,
     truthy (peerOf reg n v) = false ->
     let r := scanVersions cfg reg depEntries i n cc (v :: rest) w in
     probes (issued w (snd r)) = [v] /\
     versionQueries (snd r) = S (versionQueries w)).
Proof.
  intros Hex.
  assert (Hstop : forall v st,
    hasAngularPeerDep (scanStep cfg cc v (peerOf reg n v) st) = false ->
    compatVersions (scanStep cfg cc v (peerOf reg n v) st) <> [] ->
    earlyExit cfg (scanStep cfg cc v (peerOf reg n v) st) = true).
  { intros v st Hp Hc. unfold earlyExit. rewrite Hex, Hp.
    destruct (compatVersions _); [contradiction | reflexivity]. }
  split.
  - intros v rest st st' r Hp Hc. subst r.
    destruct (scanLoop_spec i n cc (v :: rest) st w) as [Hs _].
    rewrite Hs, scanLoop_probes.
    cbn [firstLoopState firstLoopProbed]. fold st'.
    unfold st' in *. rewrite (Hstop v st Hp Hc). auto.
  - intros v rest Hpeer r. subst r.
    destruct (scanVersions_spec i n cc (v :: rest) w) as [_ [_ _ Hq _]].
    rewrite Hq, scanVersions_probes.
    assert (Hcand : exists tl, candidateVersions cfg (v :: rest) = v :: tl).
    { unfold candidateVersions, sliceTo.
      destruct (0 <? fastLimit cfg)%Z eqn:Hf; [|eauto].
      apply Z.ltb_lt in Hf.
      destruct (Z.to_nat (fastLimit cfg)) eqn:Hn; [lia|].
      simpl. eauto. }
    destruct Hcand as (tl & Htl).
    assert (Hprobed : scanProbed cfg reg n cc (v :: rest) = [v]).
    { unfold scanProbed. rewrite Htl.
      cbn [firstLoopState firstLoopProbed].
      set (st0 := scanInit cfg (v :: rest) cc).
      assert (Hp : hasAngularPeerDep (scanStep cfg cc v (peerOf reg n v) st0)
                   = false).
      { unfold scanStep; cbn [hasAngularPeerDep]. rewrite Hpeer. reflexivity. }
      assert (Hc : compatVersions (scanStep cfg cc v (peerOf reg n v) st0)
                   <> []).
      { unfold scanStep, classifiedCompatible; cbn [compatVersions].
        rewrite Hpeer. simpl. discriminate. }
      rewrite (Hstop v st0 Hp Hc).
      unfold mustExtend. rewrite Hp. reflexivity. }
    rewrite Hprobed. split; [reflexivity | simpl; lia].
Qed.

(** C4.  A probed version that declares an Angular peer requirement is
    in the compatible list exactly when [<angularMajor>.0.0] satisfies
    the declared range, [semver.satisfies] being called with the
    [includePrerelease] flag of the run. *)
Theorem formal_peer_classification i n cc versions w v :
  let r := scanVersions cfg reg depEntries i n cc versions w in
  In v (probes (issued w (snd r))) ->
  truthy (peerOf reg n v) = true ->
  (In v (compatVersions (fst r)) <->
   satisfies (showPos (angularMajor cfg) ++ ".0.0") (tpl (peerOf reg n v))
             (includePrerelease cfg) = true).
Proof.
  intros r Hin Hpeer. subst r.
  destruct (scanVersions_spec i n cc versions w) as [Hs _].
  rewrite Hs, scanState_compat. rewrite scanVersions_probes in Hin.
  rewrite filter_In. unfold compatibleAt, classifiedCompatible, satisfiesAngular.
  rewrite Hpeer. simpl. split.
  - intros [_ H]. exact H.
  - intros H. split; [exact Hin | exact H].
Qed.

Lemma latestCompatOf_first st :
  latestCompatOf st = firstElt (compatVersions st).
Proof. unfold latestCompatOf. destruct (compatVersions st); reflexivity. Qed.

Lemma earliestCompatOf_last st :
  hasAngularPeerDep st = true ->
  earliestCompatOf st = lastElt (compatVersions st).
Proof.
  intros H. unfold earliestCompatOf. rewrite H.
  destruct (compatVersions st); reflexivity.
Qed.

(** C10.  A probed version whose peer query fails, or which declares no
    Angular peer requirement, is in the compatible list, whatever the
    other versions declare; when it is the first or the last of that
    list it is [latestCompat] or [earliestCompat] of a package for
    which an Angular peer requirement was seen. *)
Theorem peerless_version_is_compatible i n cc versions w v :
  let r := scanVersions cfg reg depEntries i n cc versions w in
  In v (probes (issued w (snd r))) ->
  viewPeerDeps reg n v = None \/ truthy (peerOf reg n v) = false ->
  In v (compatVersions (fst r)) /\
  (hasAngularPeerDep (fst r) = true ->
   firstElt (compatVersions (fst r)) = Some v ->
   latestCompatOf (fst r) = Some v) /\
  (hasAngularPeerDep (fst r) = true ->
   lastElt (compatVersions (fst r)) = Some v ->
   earliestCompatOf (fst r) = Some v).
Proof.
  intros r Hin Hpeer. subst r.
  destruct (scanVersions_spec i n cc versions w) as [Hs _].
  rewrite Hs. rewrite scanVersions_probes in Hin.
  assert (Hfalsy : truthy (peerOf reg n v) = false).
  { destruct Hpeer as [Hfail|Hno]; auto.
    unfold peerOf. rewrite Hfail. reflexivity. }
  split; [|split].
  - rewrite scanState_compat, filter_In. split; auto.
    unfold compatibleAt, classifiedCompatible. rewrite Hfalsy. reflexivity.
  - intros _ Hf. rewrite latestCompatOf_first. exact Hf.
  - intros Hp Hl. rewrite (earliestCompatOf_last _ Hp). exact Hl.
Qed.

(* ---------------------------------------------------------------- *)
(** *** The record of a package *)

Lemma processPackage_pushed entry i w :
  pushed w (snd (processPackage cfg reg depEntries entry i w))
  = [recordFor cfg reg depEntries entry].
Proof.
  destruct (processPackage_spec entry i w) as [Hr _ _ _].
  apply pushed_app, Hr.
Qed.

Lemma valid_truthy v : valid v = true -> truthyStr v = true.
Proof.
  destruct v; [rewrite valid_empty; discriminate | reflexivity].
Qed.

Lemma packageVersions_valid meta v :
  In v (packageVersions cfg meta) -> valid v = true.
Proof.
  unfold packageVersions. intros H.
  apply (Permutation_in _ (sortBy_perm rcompare _)) in H.
  destruct (negb (includePrerelease cfg)).
  - apply filter_In in H. destruct H as [H _].
    apply filter_In in H. destruct H as [_ H]. exact H.
  - apply filter_In in H. destruct H as [_ H]. exact H.
Qed.

Lemma throughCurrent_incl cc vs v : In v (throughCurrent cc vs) -> In v vs.
Proof.
  induction vs as [|x vs IH]; simpl; auto.
  intros [H|H]; auto. destruct (String.eqb x cc); [contradiction|auto].
Qed.

Lemma scanProbed_incl n cc versions v :
  In v (scanProbed cfg reg n cc versions) -> In v versions.
Proof.
  unfold scanProbed. intros H. apply in_app_or in H. destruct H as [H|H].
  - destruct (firstLoopProbed_prefix n cc (candidateVersions cfg versions)
                (scanInit cfg versions cc)) as (rest & Hr).
    assert (Hc : In v (candidateVersions cfg versions)).
    { rewrite Hr. apply in_or_app. auto. }
    unfold candidateVersions, sliceTo in Hc.
    destruct (0 <? fastLimit cfg)%Z; auto.
    rewrite <- (firstn_skipn (Z.to_nat (fastLimit cfg)) versions).
    apply in_or_app. auto.
  - destruct (mustExtend cfg versions _); [|contradiction].
    apply throughCurrent_incl in H. unfold sliceFrom in H.
    rewrite <- (firstn_skipn
                  (versionIndex (firstLoopState cfg reg n cc
                     (candidateVersions cfg versions)
                     (scanInit cfg versions cc))) versions).
    apply in_or_app. auto.
Qed.

(** The versions classified compatible are version strings of the
    package, hence not empty. *)
Lemma compatVersions_truthy n cc meta v :
  In v (compatVersions (scanState cfg reg n cc (packageVersions cfg meta))) ->
  truthyStr v = true.
Proof.
  rewrite scanState_compat, filter_In. intros [H _].
  apply valid_truthy, (packageVersions_valid meta), (scanProbed_incl n cc), H.
Qed.

Lemma last_In (xs : list string) d : xs <> [] -> In (last xs d) xs.
Proof.
  induction xs as [|x xs IH]; [congruence|]. intros _.
  destruct xs as [|y ys]; [left; reflexivity|].
  right. apply IH. discriminate.
Qed.

(** C5.  For a package for which an Angular peer requirement was seen
    and whose compatible list is not empty, [latestCompat] is the first
    and [earliestCompat] the last of that list, and the recommendation
    is: keep, when the current version is in the list and is
    [latestCompat]; optionally upgrade to [latestCompat], when it is in
    the list otherwise; must upgrade to [earliestCompat], when it is not
    in the list. *)
Theorem formal_recommendation entry i w meta :
  viewMeta reg (entryName entry) = Some meta ->
  let currentClean := stripRange (entryCurrent entry) in
  let st := fst (scanVersions cfg reg depEntries i (entryName entry)
                   currentClean (packageVersions cfg meta) w) in
  hasAngularPeerDep st = true ->
  compatVersions st <> [] ->
  let latestCompatible := hd "" (compatVersions st) in
  let earliestCompatible := last (compatVersions st) "" in
  let rs := pushed w (snd (processPackage cfg reg depEntries entry i w)) in
  map latestCompat rs = [Some latestCompatible] /\
  map earliestCompat rs = [Some earliestCompatible] /\
  map recommendedVersion rs =
    [Some (if includesStr currentClean (compatVersions st)
           then (if String.eqb currentClean latestCompatible
                 then "#3 Keep current version"
                 else "#2 Optionally upgrade to " ++ latestCompatible)
           else "#1 Must upgrade to " ++ earliestCompatible)].
Proof.
  intros Hmeta currentClean st. subst st.
  destruct (scanVersions_spec i (entryName entry) currentClean
              (packageVersions cfg meta) w) as [Hs _].
  rewrite Hs. clear Hs.
  set (st := scanState cfg reg (entryName entry) currentClean
               (packageVersions cfg meta)).
  intros Hpeer Hne lc ec rs.
  subst rs. rewrite processPackage_pushed.
  unfold recordFor. rewrite Hmeta. fold currentClean. fold st.
  assert (Hlc : latestCompatOf st = Some lc).
  { rewrite latestCompatOf_first. unfold lc.
    destruct (compatVersions st); [congruence | reflexivity]. }
  assert (Hec : earliestCompatOf st = Some ec).
  { rewrite (earliestCompatOf_last _ Hpeer). unfold ec, lastElt.
    destruct (compatVersions st); [congruence | reflexivity]. }
  assert (Tlc : truthyStr lc = true).
  { apply (compatVersions_truthy (entryName entry) currentClean meta).
    fold st. unfold lc. destruct (compatVersions st); [congruence|].
    left; reflexivity. }
  assert (Tec : truthyStr ec = true).
  { apply (compatVersions_truthy (entryName entry) currentClean meta).
    fold st. apply last_In, Hne. }
  unfold successRecord. cbn [map latestCompat earliestCompat recommendedVersion].
  fold currentClean. rewrite Hpeer.
  unfold recommendedVersionDisplay. rewrite Hpeer, Hlc, Hec.
  cbn [truthy strictEq tpl]. rewrite Tlc, Tec. cbn [negb].
  unfold orEmpty, jsOr. cbn [truthy]. rewrite Tlc, Tec.
  auto.
Qed.

(** C6, as the code has it.  For a package for which no Angular peer
    requirement was seen, the compatible bounds are [n/a] and the
    recommendation compares the stripped current version with [latest]
    under the verdict of the heuristic check.  When they are the same
    string: keep, if the check finds the package compatible, and [n/a] if
    it does not.  When the current version is behind [latest]: optionally
    upgrade to [latest], if the check finds the package compatible, and
    must upgrade to [latest] if it does not. *)
Theorem informal_recommendation entry i w meta latestV :
  viewMeta reg (entryName entry) = Some meta ->
  metaVersion meta = Some latestV ->
  let currentClean := stripRange (entryCurrent entry) in
  let versions := packageVersions cfg meta in
  let st := fst (scanVersions cfg reg depEntries i (entryName entry)
                   currentClean versions w) in
  hasAngularPeerDep st = false ->
  let compatible :=
    isCompatible (fst (checkAngularCompatibility cfg reg depEntries
                         (entryName entry) (Some latestV) versions i w)) in
  let rs := pushed w (snd (processPackage cfg reg depEntries entry i w)) in
  map earliestCompat rs = [Some "n/a"] /\
  map latestCompat rs = [Some "n/a"] /\
  (currentClean = latestV ->
   map recommendedVersion rs
   = [Some (if compatible then "#3 Keep current version" else "n/a")]) /\
  (gt latestV currentClean = Some true ->
   map recommendedVersion rs
   = [Some ((if compatible then "#2 Optionally upgrade to "
             else "#1 Must upgrade to ") ++ latestV)]).
Proof.
  intros Hmeta Hlatest currentClean versions st. subst st.
  destruct (scanVersions_spec i (entryName entry) currentClean versions w)
    as [Hs _].
  rewrite Hs. clear Hs.
  intros Hpeer compatible rs. subst compatible.
  destruct (checkAngularCompatibility_spec (entryName entry) (Some latestV)
              versions i w) as [Hi _].
  rewrite Hi. clear Hi.
  subst rs. rewrite processPackage_pushed.
  unfold recordFor. rewrite Hmeta.
  fold currentClean versions.
  unfold successRecord. cbn [map latestCompat earliestCompat recommendedVersion].
  fold currentClean versions. rewrite Hpeer.
  unfold recommendedVersionDisplay, compatInfoFor. rewrite Hpeer, Hlatest.
  cbn [negb strictEq tpl truthy]. fold versions.
  split; [reflexivity|]. split; [reflexivity|]. split.
  - intros Heq. rewrite Heq, String.eqb_refl, andb_false_r.
    destruct (isCompatible _); reflexivity.
  - intros Hbehind.
    assert (Hne : String.eqb currentClean latestV = false).
    { apply String.eqb_neq. intros Heq. rewrite Heq in Hbehind.
      exact (gt_irrefl latestV Hbehind). }
    rewrite Hne, (valid_truthy _ (gt_valid _ _ Hbehind)).
    destruct (isCompatible _); reflexivity.
Qed.
(* ---------------------------------------------------------------- *)
(** *** [run] *)

Lemma recordFor_name entry :
  name (recordFor cfg reg depEntries entry) = entryName entry.
Proof. unfold recordFor. destruct (viewMeta reg _); reflexivity. Qed.

Lemma runStart_spec w0 :
  let p0 := fst (runStart cfg depEntries w0) in
  queue p0 = depEntries /\
  workers p0
    = repeat Idle (Nat.min (Pos.to_nat (jobs cfg)) (List.length depEntries)) /\
  results (world p0) = results w0.
Proof.
  unfold runStart, when, redrawScreen, writeStderr.
  destruct (showProgress cfg); repeat (rewrite bind_run; simpl); auto.
Qed.

Lemma runStart_inv w0 :
  poolInv cfg reg depEntries
    (results w0 ++ map (recordFor cfg reg depEntries) depEntries)
    (fst (runStart cfg depEntries w0)).
Proof.
  destruct (runStart_spec w0) as (Hq & Hw & Hr).
  unfold poolInv, allStopped. rewrite Hq, Hw, Hr. split.
  - assert (Hi : forall k, inflight (repeat Idle k) = []).
    { induction k; simpl; auto. }
    rewrite Hi. reflexivity.
  - destruct depEntries as [|e es]; [left; reflexivity | right].
    destruct (Pos.to_nat (jobs cfg)) eqn:Hj; [lia | reflexivity].
Qed.

(** Whatever the schedule, [run] ends with the records of all entries,
    sorted. *)
Lemma run_results schedule w0 :
  Permutation
    (results (snd (run localeCompare cfg reg depEntries schedule w0)))
    (results w0 ++ map (recordFor cfg reg depEntries) depEntries).
Proof.
  unfold run.
  pose proof (runStart_inv w0) as Hinv.
  destruct (runStart cfg depEntries w0) as [p0 w1]. cbn [fst] in Hinv.
  apply (runSchedule_inv _ schedule) in Hinv.
  set (p1 := runSchedule cfg reg depEntries schedule p0) in *.
  destruct (drain_complete _ (stepsLeft p1) p1 eq_refl Hinv) as [Hd Hs].
  pose proof (poolInv_done _ _ Hd Hs) as Hp.
  set (p2 := drain cfg reg depEntries (stepsLeft p1) p1) in *.
  rewrite <- Hp.
  unfold runFinish, when, writeStderr.
  destruct (showProgress cfg); repeat (rewrite bind_run; simpl);
    apply sortBy_perm.
Qed.

(** C1.  For every list of entries, every registry and every schedule of
    the workers, [run] ends with as many records as there are entries,
    and the names of the records are the names of the entries, each as
    often as it is entered. *)
Theorem one_record_per_entry schedule tl :
  let out :=
    results (snd (run localeCompare cfg reg depEntries schedule
                      (initialWorld tl))) in
  List.length out = List.length depEntries /\
  Permutation (map name out) (map entryName depEntries).
Proof.
  intros out. subst out.
  pose proof (run_results schedule (initialWorld tl)) as H. simpl in H.
  split.
  - rewrite (Permutation_length H). apply length_map.
  - rewrite (Permutation_map name H), map_map.
    erewrite map_ext; [reflexivity|]. apply recordFor_name.
Qed.

Lemma setWorker_nth i x : forall ws old,
  nth_error ws i = Some old -> nth_error (setWorker i x ws) i = Some x.
Proof.
  induction i as [|i IH]; intros [|h t] old Hn; simpl in Hn; try discriminate.
  - reflexivity.
  - simpl. apply (IH t old Hn).
Qed.

Lemma setWorker_twice i x y : forall ws,
  setWorker i y (setWorker i x ws) = setWorker i y ws.
Proof.
  induction i as [|i IH]; intros [|h t]; simpl; auto.
  f_equal. apply IH.
Qed.

(** C7.  When the metadata query of an entry is rejected,
    [processPackage] pushes one record for it, with [Unknown] and [n/a]
    in the computed columns and the note of the failure, and counts the
    entry as finished; its worker goes back to the queue and takes the
    next entry; and [run] ends with the record of every entry, each the
    record of that entry alone. *)
Theorem metadata_failure_is_recorded entry i w :
  viewMeta reg (entryName entry) = None ->
  let w' := snd (processPackage cfg reg depEntries entry i w) in
  results w'
    = (results w
         ++ [ {| name := entryName entry;
                 current := entryCurrent entry;
                 latest := None;
                 earliestCompat := Some "n/a";
                 latestCompat := Some "n/a";
                 peerAngular := Some "Unknown";
                 versionsBehindLatestCompat := Some "Unknown";
                 recommendedVersion := Some "n/a";
                 note := Some "Failed to fetch metadata";
                 migrationLink := lookupLink MIGRATION_LINKS (entryName entry);
                 isDev := entryIsDev entry |} ])%list /\
  finished w' = S (finished w) /\
  (forall p next rest,
     world p = w -> nth_error (workers p) i = Some (Busy entry) ->
     queue p = next :: rest ->
     exists p',
       workerStep cfg reg depEntries i p = Some p' /\
       world p' = w' /\
       workerStep cfg reg depEntries i p'
       = Some {| queue := rest;
                 workers := setWorker i (Busy next) (workers p);
                 world := w' |}) /\
  (forall schedule tl,
     Permutation
       (results (snd (run localeCompare cfg reg depEntries schedule
                          (initialWorld tl))))
       (map (recordFor cfg reg depEntries) depEntries)).
Proof.
  intros Hfail w'. subst w'.
  destruct (processPackage_spec entry i w) as [Hr _ _ Hf].
  unfold recordFor in Hr. rewrite Hfail in Hr.
  split; [exact Hr|]. split; [rewrite Hf; lia|]. split.
  - intros p next rest Hw Hn Hq.
    unfold workerStep at 1. rewrite Hn, Hw.
    eexists. split; [reflexivity|]. split; [reflexivity|].
    unfold workerStep. cbn [workers queue world].
    rewrite (setWorker_nth i Idle _ _ Hn), Hq, setWorker_twice.
    reflexivity.
  - intros schedule tl. apply (run_results schedule (initialWorld tl)).
Qed.

Lemma firstLoop_exhaustive_probes_all n cc vs :
  exhaustive cfg = true ->
  forall st, firstLoopProbed cfg reg n cc vs st = vs.
Proof.
  intros Hex. induction vs as [|v vs IH]; intros st; auto.
  cbn [firstLoopProbed]. unfold earlyExit at 1. rewrite Hex. simpl.
  rewrite IH. reflexivity.
Qed.

(** C8.  With [fastLimit] 0 the candidates of the scan are all the
    versions of the package: the first loop runs over the whole list and
    there is no extension; with [--exhaustive] every version is probed. *)
Theorem no_fast_limit_scans_all i n cc versions w :
  fastLimit cfg = 0%Z ->
  candidateVersions cfg versions = versions /\
  scanVersions cfg reg depEntries i n cc versions w
    = scanLoop cfg reg depEntries i n cc versions
               (scanInit cfg versions cc) w /\
  (exhaustive cfg = true ->
   probes (issued w (snd (scanVersions cfg reg depEntries i n cc versions w)))
   = versions).
Proof.
  intros H0.
  assert (Hc : candidateVersions cfg versions = versions).
  { unfold candidateVersions. rewrite H0. reflexivity. }
  assert (Hm : forall st, mustExtend cfg versions st = false).
  { intros st. unfold mustExtend. rewrite H0. simpl.
    rewrite andb_false_r. reflexivity. }
  split; [exact Hc|]. split.
  - unfold scanVersions. rewrite bind_run, Hc, Hm.
    unfold ret. rewrite <- surjective_pairing. reflexivity.
  - intros Hex. rewrite scanVersions_probes. unfold scanProbed.
    rewrite Hc, Hm, app_nil_r.
    apply firstLoop_exhaustive_probes_all, Hex.
Qed.
End Facts.

(* ------------------------------------------------------------------ *)
(** ** The display toggles *)

(** The heuristic check reads neither the flags nor the world. *)
Lemma checkAngularCompatibility_indep {semver : Semver}
      cfg1 cfg2 reg deps1 deps2 n latestV versions i j w1 w2 :
  fst (checkAngularCompatibility cfg1 reg deps1 n latestV versions i w1)
  = fst (checkAngularCompatibility cfg2 reg deps2 n latestV versions j w2).
Proof.
  rewrite (proj1 (checkAngularCompatibility_spec cfg1 reg deps1 n latestV
                    versions i w1)).
  rewrite (proj1 (checkAngularCompatibility_spec cfg2 reg deps2 n latestV
                    versions j w2)).
  unfold heuristicInfo, checkAngularCompatibility.
  destruct (existsb _ angularCompatiblePackages); [reflexivity|].
  unfold execInfo. rewrite !bind_run. simpl.
  destruct (viewInfo reg n) as [packageInfo|]; [|reflexivity].
  repeat match goal with
         | |- context [if ?c then _ else _] => destruct c
         | |- context [match ?c with Some _ => _ | None => _ end] => destruct c
         end; reflexivity.
Qed.

Lemma scanState_toggles {semver : Semver} progress verb cfg reg n cc :
  forall versions,
  scanState (withToggles progress verb cfg) reg n cc versions
  = scanState cfg reg n cc versions.
Proof. reflexivity. Qed.

(** The record of an entry does not depend on the two toggles. *)
Lemma recordFor_toggles {semver : Semver} progress verb cfg reg deps entry :
  recordFor (withToggles progress verb cfg) reg deps entry
  = recordFor cfg reg deps entry.
Proof.
  unfold recordFor. destruct (viewMeta reg (entryName entry)) as [meta|];
    [|reflexivity].
  change (packageVersions (withToggles progress verb cfg) meta)
    with (packageVersions cfg meta).
  rewrite scanState_toggles.
  set (st := scanState cfg reg _ _ _).
  assert (Hi : compatInfoFor (withToggles progress verb cfg) reg deps
                 (entryName entry) meta st
               = compatInfoFor cfg reg deps (entryName entry) meta st).
  { unfold compatInfoFor. destruct (negb (hasAngularPeerDep st)); auto.
    unfold heuristicInfo. apply checkAngularCompatibility_indep. }
  rewrite Hi. reflexivity.
Qed.

(** C9.  Two runs that differ in [--no-progress] and [--verbose] only
    push the same record for every entry, from whatever state of the
    finished counter, the worker statuses and the clock, and under
    whatever worker id; and their results hold the same records whatever
    the schedules of their workers. *)
Theorem display_is_observational {semver : Semver}
        (localeCompare : string -> string -> comparison)
        (cfg : Config) (reg : Registry) (depEntries : list DepEntry)
        (progress verb progress' verb' : bool) :
  let cfg1 := withToggles progress verb cfg in
  let cfg2 := withToggles progress' verb' cfg in
  (forall entry i j w w',
     pushed w (snd (processPackage cfg1 reg depEntries entry i w))
     = pushed w' (snd (processPackage cfg2 reg depEntries entry j w'))) /\
  (forall schedule schedule' tl tl',
     Permutation
       (results (snd (run localeCompare cfg1 reg depEntries schedule
                          (initialWorld tl))))
       (results (snd (run localeCompare cfg2 reg depEntries schedule'
                          (initialWorld tl'))))).
Proof.
  intros cfg1 cfg2. split.
  - intros entry i j w w'. rewrite !processPackage_pushed.
    unfold cfg1, cfg2. rewrite !recordFor_toggles. reflexivity.
  - intros schedule schedule' tl tl'.
    rewrite (run_results localeCompare cfg1 reg depEntries schedule
               (initialWorld tl)).
    rewrite (run_results localeCompare cfg2 reg depEntries schedule'
               (initialWorld tl')).
    simpl. erewrite map_ext; [reflexivity|].
    intros entry. unfold cfg1, cfg2. rewrite !recordFor_toggles. reflexivity.
Qed.

(* ------------------------------------------------------------------ *)
(** ** The [--fast] flag *)

(** [fastLimit] is 0 exactly when no argument starts with [--fast]. *)
Lemma parseFastLimit_zero Number args :
  parseFastLimit Number args = 0%Z <-> find (startsWith "--fast") args = None.
Proof.
  unfold parseFastLimit.
  destruct (find (startsWith "--fast") args) as [fastArg|]; [|tauto].
  split; [|discriminate]. intros H. exfalso.
  destruct (flagValue Number fastArg 15) as [n|]; [|discriminate].
  destruct (n =? 0)%Z eqn:Hn; [discriminate|].
  apply Z.eqb_neq in Hn. contradiction.
Qed.

(** In particular [--fast=0] is read as 15. *)
Lemma parseFastLimit_fast_equals_zero Number :
  Number "0" = Some 0%Z -> parseFastLimit Number ["--fast=0"] = 15%Z.
Proof.
  intros H. unfold parseFastLimit, flagValue. simpl. rewrite H. reflexivity.
Qed.

(* ------------------------------------------------------------------ *)
(** ** What the script leaves alone *)

Lemma keeps_ret {A T} (f : World -> T) (a : A) : keeps f (ret a).
Proof. intros w. reflexivity. Qed.

Lemma keeps_bind {A B T} (f : World -> T) (c : M A) (k : A -> M B) :
  keeps f c -> (forall a, keeps f (k a)) -> keeps f (bind c k).
Proof.
  intros Hc Hk w. rewrite bind_run, Hk, Hc. reflexivity.
Qed.

Lemma keeps_gets {A T} (f : World -> T) (g : World -> A) : keeps f (gets g).
Proof. intros w. reflexivity. Qed.

Lemma keeps_modify {T} (f : World -> T) (g : World -> World) :
  (forall w, f (g w) = f w) -> keeps f (modify g).
Proof. intros H w. apply H. Qed.

Lemma keeps_when {T} (f : World -> T) (b : bool) (c : M unit) :
  keeps f c -> keeps f (when b c).
Proof. intros H. destruct b; [exact H | apply keeps_ret]. Qed.

Create HintDb frame.

Ltac frame_step :=
  match goal with
  | |- keeps _ (bind _ _) => apply keeps_bind; [|intro]
  | |- keeps _ (ret _) => apply keeps_ret
  | |- keeps _ (gets _) => apply keeps_gets
  | |- keeps _ (when _ _) => apply keeps_when
  | |- keeps _ (modify _) => apply keeps_modify; intro; auto with frame
  | |- keeps _ (if ?b then _ else _) => destruct b
  | |- keeps _ (match ?x with Some _ => _ | None => _ end) => destruct x
  end.

Ltac frame := repeat frame_step; auto with frame.

Section Frame.
Context {semver : Semver}.
Variable localeCompare : string -> string -> comparison.
Variable cfg : Config.
Variable reg : Registry.
Variable depEntries : list DepEntry.

(** An observation that depends neither on the results, nor on the log
    of commands, nor on the two counters, and that the status display
    leaves alone, is left alone by the whole processing. *)
Context {T : Type} (f : World -> T).
Hypothesis f_results : forall r w, f (setResults r w) = f w.
Hypothesis f_finished : forall n w, f (setFinished n w) = f w.
Hypothesis f_queries : forall n w, f (setVersionQueries n w) = f w.
Hypothesis f_log : forall l w, f (setExecLog l w) = f w.
Hypothesis f_status :
  forall i s, keeps f (updateWorkerStatus cfg depEntries i s).

Hint Resolve f_results f_finished f_queries f_log f_status : frame.

Lemma queryPeer_keeps n v : keeps f (queryPeer reg n v).
Proof. unfold queryPeer, execPeerDeps. frame. Qed.

Lemma scanLoop_keeps i n cc vs : forall st,
  keeps f (scanLoop cfg reg depEntries i n cc vs st).
Proof.
  induction vs as [|v rest IH]; intros st; cbn [scanLoop].
  - apply keeps_ret.
  - apply keeps_bind; [apply f_status | intros _].
    apply keeps_bind; [apply queryPeer_keeps | intros peer].
    destruct (earlyExit cfg _); [apply keeps_ret | apply IH].
Qed.

Lemma extendLoop_keeps i n cc vs : forall st,
  keeps f (extendLoop cfg reg depEntries i n cc vs st).
Proof.
  induction vs as [|v rest IH]; intros st; cbn [extendLoop].
  - apply keeps_ret.
  - apply keeps_bind; [apply f_status | intros _].
    apply keeps_bind; [apply queryPeer_keeps | intros peer].
    destruct (String.eqb v cc); [apply keeps_ret | apply IH].
Qed.

Lemma scanVersions_keeps i n cc versions :
  keeps f (scanVersions cfg reg depEntries i n cc versions).
Proof.
  unfold scanVersions.
  apply keeps_bind; [apply scanLoop_keeps | intros st].
  destruct (mustExtend cfg versions st); [|apply keeps_ret].
  apply keeps_bind; [apply f_status | intros _]. apply extendLoop_keeps.
Qed.

Lemma checkAngularCompatibility_keeps n latestV versions i :
  keeps f (checkAngularCompatibility cfg reg depEntries n latestV versions i).
Proof.
  unfold checkAngularCompatibility, execInfo.
  destruct (existsb _ angularCompatiblePackages); [apply keeps_ret|].
  apply keeps_bind; [apply f_status | intros _].
  apply keeps_bind; [frame | intros r].
  destruct r as [packageInfo|]; [|apply keeps_ret].
  repeat match goal with
         | |- keeps _ (if ?c then _ else _) => destruct c
         | |- keeps _ (match ?c with Some _ => _ | None => _ end) => destruct c
         end; apply keeps_ret.
Qed.

Lemma processPackage_keeps entry i :
  keeps f (processPackage cfg reg depEntries entry i).
Proof.
  unfold processPackage, execMeta, pushResult.
  apply keeps_bind; [apply f_status | intros _].
  apply keeps_bind; [frame | intros r].
  apply keeps_bind; [|intros _; frame].
  destruct r as [meta|].
  - apply keeps_bind; [apply scanVersions_keeps | intros st].
    apply keeps_bind.
    + destruct (negb (hasAngularPeerDep st));
        [apply checkAngularCompatibility_keeps | apply keeps_ret].
    + intros info. frame.
  - frame.
Qed.

Lemma workerStep_keeps i p p' :
  workerStep cfg reg depEntries i p = Some p' ->
  f (world p') = f (world p).
Proof.
  unfold workerStep.
  destruct (nth_error (workers p) i) as [[|entry|]|]; try discriminate.
  - destruct (queue p); intros H; inversion H; subst; simpl; auto.
    apply f_status.
  - intros H; inversion H; subst; simpl. apply processPackage_keeps.
Qed.

Lemma runSchedule_keeps schedule : forall p,
  f (world (runSchedule cfg reg depEntries schedule p)) = f (world p).
Proof.
  induction schedule as [|i rest IH]; intros p; simpl; auto.
  destruct (workerStep cfg reg depEntries i p) as [p'|] eqn:Hs; auto.
  rewrite IH. apply (workerStep_keeps i p p' Hs).
Qed.

Lemma drain_keeps fuel : forall p,
  f (world (drain cfg reg depEntries fuel p)) = f (world p).
Proof.
  induction fuel as [|fuel IH]; intros p; simpl; auto.
  destruct (firstActive (workers p)) as [i|]; auto.
  destruct (workerStep cfg reg depEntries i p) as [p'|] eqn:Hs; auto.
  rewrite IH. apply (workerStep_keeps i p p' Hs).
Qed.
End Frame.

Section Output.
Context {semver : Semver}.
Variable localeCompare : string -> string -> comparison.
Variable cfg : Config.
Variable reg : Registry.
Variable depEntries : list DepEntry.

Lemma updateWorkerStatus_stdout i s :
  keeps stdout (updateWorkerStatus cfg depEntries i s).
Proof.
  unfold updateWorkerStatus, redrawScreen, writeStderr, dateNow.
  apply keeps_bind; [apply keeps_gets | intros b].
  destruct (negb (showProgress cfg) || negb b)%bool; [apply keeps_ret|].
  apply keeps_bind; [frame | intros _].
  apply keeps_bind; [intros w; reflexivity | intros now].
  destruct (showProgress cfg); frame.
Qed.

Lemma runStart_stdout w0 :
  stdout (world (fst (runStart cfg depEntries w0))) = stdout w0.
Proof.
  unfold runStart, when, redrawScreen, writeStderr.
  destruct (showProgress cfg); repeat (rewrite bind_run; simpl); auto.
Qed.

Lemma runFinish_stdout w :
  let w' := snd (runFinish localeCompare cfg w) in
  stdout w' = (stdout w ++ csvHeader :: map csvRow (results w'))%list.
Proof.
  unfold runFinish, when, writeStderr.
  destruct (showProgress cfg); repeat (rewrite bind_run; simpl); auto.
Qed.

(** X1.  [run] prints the header line and then one line per record of
    the sorted results, and nothing else: with [n] entries the output has
    [n + 1] lines, whatever the registry answers and however the workers
    are scheduled. *)
Theorem run_prints_one_row_per_entry schedule tl :
  let out := snd (run localeCompare cfg reg depEntries schedule
                      (initialWorld tl)) in
  stdout out = csvHeader :: map csvRow (results out) /\
  List.length (stdout out) = S (List.length depEntries).
Proof.
  intros out.
  assert (H : stdout out = csvHeader :: map csvRow (results out)).
  { subst out. unfold run.
    pose proof (runStart_stdout (initialWorld tl)) as H0.
    destruct (runStart cfg depEntries (initialWorld tl)) as [p0 w1].
    cbn [fst] in H0.
    set (p1 := runSchedule cfg reg depEntries schedule p0).
    set (p2 := drain cfg reg depEntries (stepsLeft p1) p1).
    assert (H2 : stdout (world p2) = []).
    { unfold p2, p1.
      rewrite (drain_keeps cfg reg depEntries stdout),
              (runSchedule_keeps cfg reg depEntries stdout).
      all: try exact H0.
      all: try (intros; reflexivity).
      all: apply updateWorkerStatus_stdout. }
    pose proof (runFinish_stdout (world p2)) as H3. cbn zeta in H3.
    rewrite H3, H2. reflexivity. }
  split; [exact H|].
  rewrite H. cbn [List.length]. rewrite length_map.
  pose proof (run_results localeCompare cfg reg depEntries schedule
                (initialWorld tl)) as Hp.
  fold out in Hp. rewrite (Permutation_length Hp). simpl.
  rewrite length_map. reflexivity.
Qed.

(** With [--no-progress] the status display does nothing. *)
Lemma updateWorkerStatus_off i s w :
  showProgress cfg = false ->
  updateWorkerStatus cfg depEntries i s w = (tt, w).
Proof.
  intros Hoff. unfold updateWorkerStatus. rewrite bind_run, Hoff. reflexivity.
Qed.

(** X2.  With [--no-progress], processing a package leaves the display
    state (stderr, the clock, the redraw time, the status lines) as it
    was, and a whole [run] writes nothing to stderr and never reads the
    clock. *)
Theorem no_progress_is_silent :
  showProgress cfg = false ->
  (forall entry i w,
     displayState (snd (processPackage cfg reg depEntries entry i w))
     = displayState w) /\
  (forall schedule w0,
     let out := snd (run localeCompare cfg reg depEntries schedule w0) in
     stderr out = stderr w0 /\ clockReads out = clockReads w0).
Proof.
  intros Hoff.
  assert (Hs : forall T (f : World -> T) i s,
            keeps f (updateWorkerStatus cfg depEntries i s)).
  { intros T f i s w. rewrite (updateWorkerStatus_off i s w Hoff). reflexivity. }
  split.
  - intros entry i w.
    apply (processPackage_keeps cfg reg depEntries displayState); auto.
    all: intros; reflexivity.
  - intros schedule w0 out. subst out. unfold run.
    assert (H0 : forall w, stderr (world (fst (runStart cfg depEntries w)))
                           = stderr w /\
                           clockReads (world (fst (runStart cfg depEntries w)))
                           = clockReads w).
    { intros w. unfold runStart, when. rewrite Hoff.
      repeat (rewrite bind_run; simpl). auto. }
    specialize (H0 w0).
    destruct (runStart cfg depEntries w0) as [p0 w1]. cbn [fst] in H0.
    set (p1 := runSchedule cfg reg depEntries schedule p0).
    set (p2 := drain cfg reg depEntries (stepsLeft p1) p1).
    set (f := fun w => (stderr w, clockReads w)).
    assert (H2 : f (world p2) = f (world p0)).
    { unfold p2, p1.
      rewrite (drain_keeps cfg reg depEntries f),
              (runSchedule_keeps cfg reg depEntries f); auto.
      all: intros; reflexivity. }
    unfold f in H2. inversion H2 as [[Ha Hb]].
    unfold runFinish, when. rewrite Hoff.
    repeat (rewrite bind_run; simpl).
    destruct H0 as [H0 H1]. split; congruence.
Qed.
End Output.

(* ------------------------------------------------------------------ *)
(** ** More on the scan *)

Section ScanFacts.
Context {semver : Semver}.
Variable cfg : Config.
Variable reg : Registry.
Variable depEntries : list DepEntry.

Lemma throughCurrent_prefix cc vs :
  exists rest, vs = (throughCurrent cc vs ++ rest)%list.
Proof.
  induction vs as [|v vs IH]; [exists []; reflexivity|].
  cbn [throughCurrent]. destruct (String.eqb v cc).
  - exists vs. reflexivity.
  - destruct IH as (r & Hr). exists r. simpl. rewrite <- Hr. reflexivity.
Qed.

Lemma candidateVersions_prefix versions :
  exists rest, versions = (candidateVersions cfg versions ++ rest)%list.
Proof.
  unfold candidateVersions, sliceTo. destruct (0 <? fastLimit cfg)%Z.
  - exists (skipn (Z.to_nat (fastLimit cfg)) versions).
    symmetry. apply firstn_skipn.
  - exists []. rewrite app_nil_r. reflexivity.
Qed.

Lemma skipn_length_app {A} (l r : list A) : skipn (List.length l) (l ++ r) = r.
Proof. induction l; simpl; auto. Qed.

Lemma firstn_length_app {A} (l r : list A) : firstn (List.length l) (l ++ r) = l.
Proof. induction l; simpl; auto. f_equal. auto. Qed.

(** The versions probed are an initial segment of the version list. *)
Lemma scanProbed_prefix n cc versions :
  exists rest, versions = (scanProbed cfg reg n cc versions ++ rest)%list.
Proof.
  unfold scanProbed.
  destruct (candidateVersions_prefix versions) as (r2 & H2).
  destruct (firstLoopProbed_prefix cfg reg n cc (candidateVersions cfg versions)
              (scanInit cfg versions cc)) as (r1 & H1).
  destruct (firstLoop_facts cfg reg n cc (candidateVersions cfg versions)
              (scanInit cfg versions cc)) as (_ & Hidx & _ & _).
  set (st := firstLoopState cfg reg n cc _ _) in *.
  set (P := firstLoopProbed cfg reg n cc _ _) in *.
  destruct (mustExtend cfg versions st) eqn:Hm.
  - assert (Hp : hasAngularPeerDep st = true).
    { unfold mustExtend in Hm. destruct (hasAngularPeerDep st); auto. }
    assert (HP : P = candidateVersions cfg versions).
    { apply firstLoop_formal_probes_all. exact Hp. }
    rewrite <- HP in H2.
    assert (Hr : sliceFrom (versionIndex st) versions = r2).
    { rewrite Hidx. cbn [scanInit versionIndex]. simpl.
      unfold sliceFrom.
      transitivity (skipn (List.length P) (P ++ r2)%list);
        [f_equal; exact H2 | apply skipn_length_app]. }
    rewrite Hr.
    destruct (throughCurrent_prefix cc r2) as (r3 & H3).
    exists r3. rewrite <- app_assoc, <- H3. exact H2.
  - exists (r1 ++ r2)%list. rewrite app_nil_r, app_assoc, <- H1. exact H2.
Qed.

(** X3.  The scan probes the versions in the order of the list, from the
    newest, without a gap and without probing a version again: the
    probes are the first [k] versions, where [k] is the number of
    queries it counts. *)
Theorem scan_probes_initial_segment i n cc versions w :
  let r := scanVersions cfg reg depEntries i n cc versions w in
  let k := versionQueries (snd r) - versionQueries w in
  probes (issued w (snd r)) = firstn k versions /\
  k <= List.length versions.
Proof.
  intros r k. subst r k.
  destruct (scanVersions_spec cfg reg depEntries i n cc versions w)
    as [_ [_ _ Hq _]].
  rewrite Hq, scanVersions_probes.
  destruct (scanProbed_prefix n cc versions) as (rest & Hr).
  set (P := scanProbed cfg reg n cc versions) in *.
  replace (versionQueries w + List.length P - versionQueries w)
    with (List.length P) by lia.
  split.
  - transitivity (firstn (List.length P) (P ++ rest)%list);
      [symmetry; apply firstn_length_app | f_equal; symmetry; exact Hr].
  - assert (Hl : List.length versions = List.length (P ++ rest)%list)
      by (f_equal; exact Hr).
    rewrite Hl, length_app. lia.
Qed.

(** X4.  The compatible list holds the probed versions that were
    classified compatible, each once per probe and in the order probed;
    so [latestCompat] is the first probed version classified compatible. *)
Theorem compatible_list_is_filtered_probes i n cc versions w :
  let r := scanVersions cfg reg depEntries i n cc versions w in
  let probed := probes (issued w (snd r)) in
  compatVersions (fst r) = filter (compatibleAt cfg reg n) probed /\
  latestCompatOf (fst r) = find (compatibleAt cfg reg n) probed.
Proof.
  intros r probed. subst r probed.
  destruct (scanVersions_spec cfg reg depEntries i n cc versions w) as [Hs _].
  rewrite Hs, scanVersions_probes, latestCompatOf_first, scanState_compat.
  split; [reflexivity|].
  induction (scanProbed cfg reg n cc versions) as [|v vs IH]; simpl; auto.
  destruct (compatibleAt cfg reg n v); auto.
Qed.


(** X6.  Without [--exhaustive] the newest version alone decides whether
    the package counts as depending on Angular: the flag is set exactly
    when that version declares an Angular peer requirement, whatever the
    older versions declare. *)
Theorem newest_version_decides_peer_flag i n cc v rest w :
  exhaustive cfg = false ->
  hasAngularPeerDep
    (fst (scanVersions cfg reg depEntries i n cc (v :: rest) w))
  = truthy (peerOf reg n v).
Proof.
  intros Hex.
  destruct (scanVersions_spec cfg reg depEntries i n cc (v :: rest) w)
    as [Hs _].
  rewrite Hs. unfold scanState.
  assert (Hcand : exists tl, candidateVersions cfg (v :: rest) = v :: tl).
  { unfold candidateVersions, sliceTo.
    destruct (0 <? fastLimit cfg)%Z eqn:Hf; [|eauto].
    apply Z.ltb_lt in Hf.
    destruct (Z.to_nat (fastLimit cfg)) eqn:Hn; [lia|].
    simpl. eauto. }
  destruct Hcand as (tl & Htl). rewrite Htl.
  cbn [firstLoopState].
  set (st0 := scanInit cfg (v :: rest) cc).
  set (s1 := scanStep cfg cc v (peerOf reg n v) st0).
  assert (H1 : hasAngularPeerDep s1 = truthy (peerOf reg n v)).
  { unfold s1, scanStep. cbn [hasAngularPeerDep].
    destruct (truthy (peerOf reg n v)); reflexivity. }
  assert (Hc : compatVersions s1 <> [] \/ truthy (peerOf reg n v) = true).
  { destruct (truthy (peerOf reg n v)) eqn:Hp; [right; reflexivity | left].
    unfold s1, scanStep, classifiedCompatible. cbn [compatVersions].
    rewrite Hp. simpl. discriminate. }
  destruct (earlyExit cfg s1) eqn:He.
  - assert (Hf : hasAngularPeerDep s1 = false).
    { unfold earlyExit in He. destruct (hasAngularPeerDep s1); auto.
      rewrite andb_false_r in He. discriminate. }
    assert (Hm : mustExtend cfg (v :: rest) s1 = false)
      by (unfold mustExtend; rewrite Hf; reflexivity).
    rewrite Hm. exact H1.
  - assert (Hp : truthy (peerOf reg n v) = true).
    { destruct Hc as [Hc|Hc]; auto.
      unfold earlyExit in He. rewrite Hex, H1 in He.
      destruct (truthy (peerOf reg n v)); auto.
      destruct (compatVersions s1); [contradiction | discriminate]. }
    destruct (firstLoop_facts cfg reg n cc tl s1) as (Ha & _).
    rewrite H1, Hp in Ha. simpl in Ha.
    set (st := firstLoopState cfg reg n cc tl s1) in *.
    destruct (mustExtend cfg (v :: rest) st).
    + destruct (extension_facts cfg reg n cc
                  (sliceFrom (versionIndex st) (v :: rest)) st) as (Hx & _).
      rewrite Hx, Ha, Hp. reflexivity.
    + rewrite Ha, Hp. reflexivity.
Qed.

Lemma find_app {A} (f : A -> bool) (a b : list A) :
  find f (a ++ b)
  = match find f a with Some x => Some x | None => find f b end.
Proof.
  induction a as [|x a IH]; simpl; auto. destruct (f x); auto.
Qed.

(** The peer range that [peerAngular] holds after the first loop: the one
    it held, or else that of the first probed version that declares one. *)
Lemma firstLoop_peerAngular n cc vs : forall st,
  scanPeerAngular (firstLoopState cfg reg n cc vs st)
  = if truthy (scanPeerAngular st) then scanPeerAngular st
    else match find (fun v => truthy (peerOf reg n v))
                    (firstLoopProbed cfg reg n cc vs st) with
         | Some v => peerOf reg n v
         | None => scanPeerAngular st
         end.
Proof.
  induction vs as [|v rest IH]; intros st.
  - simpl. destruct (truthy (scanPeerAngular st)); reflexivity.
  - cbn [firstLoopState firstLoopProbed].
    set (s1 := scanStep cfg cc v (peerOf reg n v) st).
    assert (H1 : scanPeerAngular s1
                 = if truthy (peerOf reg n v)
                   then (if negb (truthy (scanPeerAngular st))
                         then peerOf reg n v else scanPeerAngular st)
                   else scanPeerAngular st) by reflexivity.
    destruct (earlyExit cfg s1).
    + rewrite H1. clearbody s1. cbn [find].
      destruct (truthy (scanPeerAngular st)) eqn:Hs,
               (truthy (peerOf reg n v)) eqn:Hp; reflexivity.
    + rewrite (IH s1), H1. clearbody s1. cbn [find].
      destruct (truthy (scanPeerAngular st)) eqn:Hs,
               (truthy (peerOf reg n v)) eqn:Hp; cbn [negb];
        rewrite ?Hs, ?Hp; reflexivity.
Qed.

Lemma extension_peerAngular n cc vs : forall st,
  scanPeerAngular (extensionState cfg reg n cc vs st)
  = if truthy (scanPeerAngular st) then scanPeerAngular st
    else match find (fun v => truthy (peerOf reg n v))
                    (throughCurrent cc vs) with
         | Some v => peerOf reg n v
         | None => scanPeerAngular st
         end.
Proof.
  induction vs as [|v rest IH]; intros st.
  - simpl. destruct (truthy (scanPeerAngular st)); reflexivity.
  - cbn [extensionState throughCurrent].
    set (s1 := extendStep cfg cc v (peerOf reg n v) st).
    assert (H1 : scanPeerAngular s1
                 = if truthy (peerOf reg n v)
                   then (if negb (truthy (scanPeerAngular st))
                         then peerOf reg n v else scanPeerAngular st)
                   else scanPeerAngular st) by reflexivity.
    destruct (String.eqb v cc).
    + rewrite H1. clearbody s1. cbn [find].
      destruct (truthy (scanPeerAngular st)) eqn:Hs,
               (truthy (peerOf reg n v)) eqn:Hp; reflexivity.
    + rewrite (IH s1), H1. clearbody s1. cbn [find].
      destruct (truthy (scanPeerAngular st)) eqn:Hs,
               (truthy (peerOf reg n v)) eqn:Hp; cbn [negb];
        rewrite ?Hs, ?Hp; reflexivity.
Qed.

(** X7.  The peer range kept for the [peerAngular] column is the one
    declared by the first probed version (the newest) that declares one,
    be that version compatible or not; it is undefined when no probed
    version declares one. *)
Theorem peer_range_of_newest_declaring_version i n cc versions w :
  let r := scanVersions cfg reg depEntries i n cc versions w in
  scanPeerAngular (fst r)
  = match find (fun v => truthy (peerOf reg n v))
               (probes (issued w (snd r))) with
    | Some v => peerOf reg n v
    | None => None
    end.
Proof.
  intros r. subst r.
  destruct (scanVersions_spec cfg reg depEntries i n cc versions w) as [Hs _].
  rewrite Hs, scanVersions_probes. unfold scanState, scanProbed.
  pose proof (firstLoop_peerAngular n cc (candidateVersions cfg versions)
                (scanInit cfg versions cc)) as H1.
  cbn [scanInit scanPeerAngular truthy] in H1.
  set (st := firstLoopState cfg reg n cc _ _) in *.
  set (P := firstLoopProbed cfg reg n cc _ _) in *.
  rewrite find_app.
  destruct (mustExtend cfg versions st).
  - rewrite extension_peerAngular, H1.
    destruct (find (fun v => truthy (peerOf reg n v)) P) as [v|] eqn:Hf.
    + apply find_some in Hf. destruct Hf as [_ Hf]. rewrite Hf. reflexivity.
    + reflexivity.
  - rewrite H1. simpl.
    destruct (find (fun v => truthy (peerOf reg n v)) P); reflexivity.
Qed.

(** X8.  Under a fast limit [F] the scan probes at most [F] versions when
    the current version is among the [F] newest, and also when the
    package ends up not counted as depending on Angular: the extension
    past the limit runs in no other case. *)
Theorem fast_limit_bounds_probes i n cc versions w :
  (0 < fastLimit cfg)%Z ->
  let r := scanVersions cfg reg depEntries i n cc versions w in
  includesStr cc (sliceTo (fastLimit cfg) versions) = true \/
  hasAngularPeerDep (fst r) = false ->
  versionQueries (snd r) - versionQueries w <= Z.to_nat (fastLimit cfg).
Proof.
  intros Hfast r Hcase. subst r.
  destruct (scanVersions_spec cfg reg depEntries i n cc versions w)
    as [Hs [_ _ Hq _]].
  rewrite Hs in Hcase. rewrite Hq.
  apply Z.ltb_lt in Hfast.
  unfold scanState in Hcase. unfold scanProbed.
  destruct (firstLoop_facts cfg reg n cc (candidateVersions cfg versions)
              (scanInit cfg versions cc)) as (_ & _ & Hc & _).
  destruct (firstLoopProbed_prefix cfg reg n cc (candidateVersions cfg versions)
              (scanInit cfg versions cc)) as (r1 & H1).
  set (st := firstLoopState cfg reg n cc _ _) in *.
  set (P := firstLoopProbed cfg reg n cc _ _) in *.
  assert (Hm : mustExtend cfg versions st = false).
  { destruct (mustExtend cfg versions st) eqn:Hm; auto.
    assert (Hp : hasAngularPeerDep st = true).
    { unfold mustExtend in Hm. destruct (hasAngularPeerDep st); auto. }
    destruct Hcase as [Hin|Hno].
    - unfold mustExtend in Hm. rewrite Hc in Hm.
      unfold scanInit in Hm. cbn [currentVersionFound] in Hm.
      unfold candidateVersions in Hm at 1. rewrite Hfast, Hin in Hm.
      rewrite Hp in Hm. simpl in Hm. discriminate.
    - destruct (extension_facts cfg reg n cc
                  (sliceFrom (versionIndex st) versions) st) as (Hx & _).
      congruence. }
  rewrite Hm, app_nil_r.
  assert (Hl : List.length P <= List.length (candidateVersions cfg versions)).
  { assert (Hl : List.length (candidateVersions cfg versions)
                 = List.length (P ++ r1)%list) by (f_equal; exact H1).
    rewrite Hl, length_app. lia. }
  unfold candidateVersions, sliceTo in Hl. rewrite Hfast in Hl.
  rewrite length_firstn in Hl. lia.
Qed.

(** X9.  With [--exhaustive] and no fast limit the compatible list is
    drawn from all the versions of the package: [latestCompat] is the
    newest and [earliestCompat], for a package counted as depending on
    Angular, the oldest of all the versions classified compatible. *)
Theorem exhaustive_scan_brackets_all_versions i n cc versions w :
  exhaustive cfg = true -> fastLimit cfg = 0%Z ->
  let st := fst (scanVersions cfg reg depEntries i n cc versions w) in
  let compatible := filter (compatibleAt cfg reg n) versions in
  compatVersions st = compatible /\
  latestCompatOf st = firstElt compatible /\
  (hasAngularPeerDep st = true -> earliestCompatOf st = lastElt compatible).
Proof.
  intros Hex H0 st compatible. subst st compatible.
  destruct (scanVersions_spec cfg reg depEntries i n cc versions w) as [Hs _].
  rewrite Hs.
  assert (Hc : compatVersions (scanState cfg reg n cc versions)
               = filter (compatibleAt cfg reg n) versions).
  { rewrite scanState_compat. f_equal. unfold scanProbed.
    assert (Hm : forall st, mustExtend cfg versions st = false).
    { intros st. unfold mustExtend. rewrite H0. simpl.
      rewrite andb_false_r. reflexivity. }
    rewrite Hm, app_nil_r.
    unfold candidateVersions. rewrite H0. simpl.
    apply firstLoop_exhaustive_probes_all, Hex. }
  split; [exact Hc|]. split.
  - rewrite latestCompatOf_first, Hc. reflexivity.
  - intros Hp. rewrite (earliestCompatOf_last _ Hp), Hc. reflexivity.
Qed.
End ScanFacts.

(* ------------------------------------------------------------------ *)
(** ** More on the record and the commands of a package *)

Section RecordFacts.
Context {semver : Semver}.
Variable cfg : Config.
Variable reg : Registry.
Variable depEntries : list DepEntry.

(** X10.  For a package counted as depending on Angular of which no
    probed version was classified compatible, the record has empty
    compatible bounds, the recommendation [n/a], and says so in the
    distance and note columns. *)
Theorem no_compatible_version_record entry i w meta :
  viewMeta reg (entryName entry) = Some meta ->
  let st := fst (scanVersions cfg reg depEntries i (entryName entry)
                   (stripRange (entryCurrent entry))
                   (packageVersions cfg meta) w) in
  hasAngularPeerDep st = true ->
  compatVersions st = [] ->
  pushed w (snd (processPackage cfg reg depEntries entry i w))
  = [ {| name := entryName entry;
         current := entryCurrent entry;
         latest := metaVersion meta;
         earliestCompat := Some "";
         latestCompat := Some "";
         peerAngular := Some (orEmpty (scanPeerAngular st));
         versionsBehindLatestCompat := Some "No compatible version found";
         recommendedVersion := Some "n/a";
         note := Some ("No compatible version found for Angular "
                         ++ showPos (angularMajor cfg));
         migrationLink := Some (resolveMigrationLink (entryName entry) meta);
         isDev := entryIsDev entry |} ].
Proof.
  intros Hmeta st. subst st.
  destruct (scanVersions_spec cfg reg depEntries i (entryName entry)
              (stripRange (entryCurrent entry)) (packageVersions cfg meta) w)
    as [Hs _].
  rewrite Hs. clear Hs.
  set (st := scanState cfg reg _ _ _).
  intros Hpeer Hnone.
  rewrite processPackage_pushed. unfold recordFor. rewrite Hmeta. fold st.
  unfold successRecord, versionsBehindDisplay, recommendedVersionDisplay,
    noteDisplay, latestCompatOf, earliestCompatOf.
  rewrite Hpeer, Hnone. reflexivity.
Qed.

Lemma firstElt_includes xs x :
  firstElt xs = Some x -> includesStr x xs = true.
Proof.
  destruct xs as [|y ys]; simpl; [discriminate|].
  intros H. inversion H; subst. unfold includesStr. simpl.
  rewrite String.eqb_refl. reflexivity.
Qed.

Lemma strictEq_sym a b : strictEq a b = strictEq b a.
Proof.
  destruct a, b; simpl; auto. apply String.eqb_sym.
Qed.

(** X11.  For a package counted as depending on Angular with a
    compatible version, the note is one of three: the current version is
    compatible; else a newer [latest] lies outside the compatible
    versions; else an upgrade within the target is possible.  The note
    [Up to date] of that branch is never produced, and the note is never
    empty. *)
Theorem formal_note_is_one_of_three entry i w meta :
  viewMeta reg (entryName entry) = Some meta ->
  let currentClean := stripRange (entryCurrent entry) in
  let st := fst (scanVersions cfg reg depEntries i (entryName entry)
                   currentClean (packageVersions cfg meta) w) in
  hasAngularPeerDep st = true ->
  compatVersions st <> [] ->
  map note (pushed w (snd (processPackage cfg reg depEntries entry i w)))
  = [Some (if includesStr currentClean (compatVersions st)
           then "Current version is compatible"
           else if (truthy (metaVersion meta)
                    && negb (strictEq (latestCompatOf st) (metaVersion meta)))%bool
           then "Newer latest likely needs different Angular peer or is prerelease"
           else "Upgradable within Angular " ++ showPos (angularMajor cfg))].
Proof.
  intros Hmeta currentClean st. subst st.
  destruct (scanVersions_spec cfg reg depEntries i (entryName entry)
              currentClean (packageVersions cfg meta) w) as [Hs _].
  rewrite Hs. clear Hs.
  set (st := scanState cfg reg (entryName entry) currentClean
               (packageVersions cfg meta)).
  intros Hpeer Hne.
  rewrite processPackage_pushed. unfold recordFor. rewrite Hmeta.
  fold currentClean. fold st.
  unfold successRecord. cbn [map note]. fold currentClean.
  unfold noteDisplay. rewrite Hpeer.
  destruct (compatVersions st) as [|lc rest] eqn:Hc; [congruence|].
  assert (Hlc : latestCompatOf st = Some lc).
  { rewrite latestCompatOf_first, Hc. reflexivity. }
  assert (Tlc : truthyStr lc = true).
  { apply (compatVersions_truthy cfg reg (entryName entry) currentClean meta).
    fold st. rewrite Hc. left. reflexivity. }
  rewrite Hlc. cbn [truthy]. rewrite Tlc. cbn [negb].
  destruct (includesStr currentClean (lc :: rest)) eqn:Hin; [reflexivity|].
  assert (Hneq : strictEq (Some lc) (Some currentClean) = false).
  { cbn [strictEq]. destruct (String.eqb lc currentClean) eqn:He; auto.
    apply String.eqb_eq in He. subst lc.
    unfold includesStr in Hin. simpl in Hin.
    rewrite String.eqb_refl in Hin. discriminate. }
  rewrite Hneq. cbn [negb].
  rewrite (strictEq_sym (metaVersion meta) (Some lc)).
  destruct (strictEq (Some lc) (metaVersion meta)), (truthy (metaVersion meta));
    reflexivity.
Qed.

(** The package is on the list of packages taken to be compatible. *)
Lemma heuristic_known_runs_nothing n latestV versions i w :
  existsb (fun pkg => startsWith pkg n) angularCompatiblePackages = true ->
  checkAngularCompatibility cfg reg depEntries n latestV versions i w
  = ({| isCompatible := true; reason := "Known Angular-compatible package" |},
     w).
Proof.
  intros H. unfold checkAngularCompatibility. rewrite H. reflexivity.
Qed.

(** X12.  The heuristic check finds a package not compatible in two
    cases only, and never for a name that starts with a name of the
    known list: its keyword query is rejected; or a keyword or the
    description mentions Angular while [latest] does not parse or the
    package has no version left after filtering.  The utility keywords
    and the [@types/] prefix change the reason, not the verdict. *)
Theorem heuristic_incompatible_iff n latestV versions i w :
  let info := fst (checkAngularCompatibility cfg reg depEntries n latestV
                     versions i w) in
  isCompatible info = false <->
  existsb (fun pkg => startsWith pkg n) angularCompatiblePackages = false /\
  (viewInfo reg n = None \/
   exists packageInfo,
     viewInfo reg n = Some packageInfo /\
     (someKeyword angularKeywords
        (match infoKeywords packageInfo with Some ks => ks | None => [] end)
      || existsb (fun ng => includes ng
                    (toLowerCase (orEmpty (infoDescription packageInfo))))
                 angularKeywords)%bool = true /\
     ((match latestV with Some l => parse l | None => None end) = None \/
      versions = [])).
Proof.
  intros info. subst info.
  destruct (checkAngularCompatibility_spec cfg reg depEntries n latestV
              versions i w) as [Hi _].
  rewrite Hi. clear Hi.
  unfold heuristicInfo, checkAngularCompatibility.
  destruct (existsb (fun pkg => startsWith pkg n) angularCompatiblePackages).
  - simpl. split; [discriminate | intros [H _]; discriminate].
  - unfold execInfo. rewrite !bind_run. cbn [fst snd modify ret].
    destruct (viewInfo reg n) as [packageInfo|].
    + set (related := (someKeyword angularKeywords _ || existsb _ _)%bool).
      destruct related eqn:Hr.
      * destruct (match latestV with Some l => parse l | None => None end)
          as [sv|] eqn:Hp.
        -- assert (Hv : (0 <? List.length (sliceTo 5 versions))%nat
                        = negb (match versions with [] => true | _ => false end)).
           { destruct versions; reflexivity. }
           rewrite Hv. destruct versions as [|v vs]; simpl.
           ++ split; [intros _|reflexivity].
              split; [reflexivity|]. right. exists packageInfo.
              repeat split; auto.
           ++ split; [discriminate|].
              intros [_ [H|(pi & Hpi & _ & [H|H])]]; discriminate.
        -- simpl. split; [intros _|reflexivity].
           split; [reflexivity|]. right. exists packageInfo.
           repeat split; auto.
      * split.
        -- intros H. exfalso.
           destruct (someKeyword utilityKeywords _ || startsWith "@types/" n)%bool;
             simpl in H; discriminate.
        -- intros [_ [H|(pi & Hpi & Hrel & _)]]; [discriminate|].
           inversion Hpi; subst pi. unfold related in Hr. congruence.
    + simpl. split; [intros _|reflexivity]. split; [reflexivity | left; reflexivity].
Qed.

(** X13.  Processing a package starts with its metadata query; when that
    is rejected it runs no other command; otherwise it runs peer queries
    for versions of the package, and the keyword query only when the
    package is not counted as depending on Angular and its name is not
    on the known list: at most two commands more than the package has
    valid versions. *)
Theorem commands_of_a_package entry i w :
  let n := entryName entry in
  let cmds := issued w (snd (processPackage cfg reg depEntries entry i w)) in
  hd_error cmds = Some (NpmView n) /\
  metaQueries cmds = [n] /\
  match viewMeta reg n with
  | None => cmds = [NpmView n]
  | Some meta =>
      List.length cmds <= 2 + List.length (packageVersions cfg meta) /\
      (In (NpmViewInfo n) cmds <->
       hasAngularPeerDep
         (scanState cfg reg n (stripRange (entryCurrent entry))
            (packageVersions cfg meta)) = false /\
       existsb (fun pkg => startsWith pkg n) angularCompatiblePackages = false)
  end.
Proof.
  intros n cmds. subst cmds.
  destruct (processPackage_spec cfg reg depEntries entry i w) as [_ Hl _ _].
  rewrite (issued_app _ _ _ Hl). unfold commandsFor. fold n.
  assert (Hmq : forall vs, metaQueries (map (NpmViewPeerDeps n) vs) = []).
  { induction vs; simpl; auto. }
  assert (Hma : forall a b, metaQueries (a ++ b)
                            = (metaQueries a ++ metaQueries b)%list).
  { induction a as [|c a IH]; intros b; simpl; auto.
    destruct c; simpl; rewrite ?IH; reflexivity. }
  assert (Hni : forall vs, ~ In (NpmViewInfo n) (map (NpmViewPeerDeps n) vs)).
  { induction vs; simpl; [intros [] |]. intros [H|H]; [discriminate | auto]. }
  destruct (viewMeta reg n) as [meta|]; [|auto].
  set (cc := stripRange (entryCurrent entry)).
  set (st := scanState cfg reg n cc (packageVersions cfg meta)).
  split; [reflexivity|]. split.
  - cbn [metaQueries]. rewrite Hma, Hmq.
    unfold heuristicQueries.
    destruct (negb (hasAngularPeerDep st)); [|reflexivity].
    destruct (existsb (fun pkg => startsWith pkg n)
                      angularCompatiblePackages); reflexivity.
  - split.
    + cbn [List.length]. rewrite length_app, length_map.
      destruct (scanProbed_prefix cfg reg n cc (packageVersions cfg meta))
        as (rest & Hr).
      assert (Hlen : List.length (scanProbed cfg reg n cc (packageVersions cfg meta))
                     <= List.length (packageVersions cfg meta)).
      { assert (He : List.length (packageVersions cfg meta)
                     = List.length (scanProbed cfg reg n cc
                                      (packageVersions cfg meta) ++ rest)%list)
          by (f_equal; exact Hr).
        rewrite He, length_app. lia. }
      assert (Hh : List.length (if negb (hasAngularPeerDep st)
                                then heuristicQueries n else []) <= 1).
      { unfold heuristicQueries.
        destruct (negb (hasAngularPeerDep st)); [|simpl; lia].
        destruct (existsb (fun pkg => startsWith pkg n)
                          angularCompatiblePackages); simpl; lia. }
      lia.
    + unfold heuristicQueries. split.
      * intros [H|H]; [discriminate|].
        apply in_app_or in H. destruct H as [H|H]; [elim (Hni _ H)|].
        destruct (hasAngularPeerDep st); cbn [negb In] in H; [contradiction|].
        destruct (existsb (fun pkg => startsWith pkg n)
                          angularCompatiblePackages);
          cbn [In] in H; [contradiction | auto].
      * intros [Hp Hk]. right. apply in_or_app. right.
        rewrite Hp, Hk. left. reflexivity.
Qed.
End RecordFacts.

(* ------------------------------------------------------------------ *)
(** ** More on [run] *)

Section RunFacts.
Context {semver : Semver}.
Variable localeCompare : string -> string -> comparison.
Variable cfg : Config.
Variable reg : Registry.
Variable depEntries : list DepEntry.

Lemma metaQueries_app a b :
  metaQueries (a ++ b) = (metaQueries a ++ metaQueries b)%list.
Proof.
  induction a as [|c a IH]; simpl; auto.
  destruct c; simpl; rewrite ?IH; reflexivity.
Qed.

Lemma metaQueries_commandsFor entry :
  metaQueries (commandsFor cfg reg entry) = [entryName entry].
Proof.
  unfold commandsFor. cbn [metaQueries].
  destruct (viewMeta reg (entryName entry)) as [meta|]; [|reflexivity].
  rewrite metaQueries_app.
  assert (Hmq : forall vs,
            metaQueries (map (NpmViewPeerDeps (entryName entry)) vs) = []).
  { induction vs; simpl; auto. }
  rewrite Hmq. unfold heuristicQueries.
  destruct (negb (hasAngularPeerDep _)); [|reflexivity].
  destruct (existsb (fun pkg => startsWith pkg (entryName entry))
                    angularCompatiblePackages); reflexivity.
Qed.

(** The books of the pool: the finished counter counts the entries that
    are neither queued nor held by a worker, the metadata queries logged
    are those of these entries, and the query counter counts the peer
    queries logged. *)
Lemma workerStep_books i p p' :
  workerStep cfg reg depEntries i p = Some p' ->
  finished (world p') + List.length (inflight (workers p') ++ queue p')
  = finished (world p) + List.length (inflight (workers p) ++ queue p) /\
  Permutation
    (metaQueries (execLog (world p'))
       ++ map entryName (inflight (workers p') ++ queue p'))
    (metaQueries (execLog (world p))
       ++ map entryName (inflight (workers p) ++ queue p)) /\
  versionQueries (world p') + List.length (probes (execLog (world p)))
  = versionQueries (world p) + List.length (probes (execLog (world p'))).
Proof.
  unfold workerStep.
  destruct (nth_error (workers p) i) as [[|entry|]|] eqn:Hn; try discriminate.
  - destruct (queue p) as [|entry rest] eqn:Hq; intros H; inversion H;
      subst; clear H; cbn [world workers queue].
    + pose proof (updateWorkerStatus_quiet cfg depEntries i "Finished."
                    (world p)) as Hu.
      apply effects_quiet in Hu. destruct Hu as (_ & Hl & Hv & Hf).
      pose proof (setWorker_inflight i Stopped _ _ Hn) as Hi.
      simpl in Hi. rewrite Hl, Hv, Hf, !app_nil_r.
      split; [rewrite (Permutation_length Hi); reflexivity|].
      split; [rewrite Hi; reflexivity | reflexivity].
    + pose proof (setWorker_inflight i (Busy entry) _ _ Hn) as Hi.
      simpl in Hi.
      assert (Hp : Permutation
                (inflight (setWorker i (Busy entry) (workers p)) ++ rest)
                (inflight (workers p) ++ entry :: rest)).
      { rewrite Hi. simpl. apply Permutation_middle. }
      split; [rewrite (Permutation_length Hp); reflexivity|].
      split; [rewrite Hp; reflexivity | reflexivity].
  - intros H; inversion H; subst; clear H; cbn [world workers queue].
    destruct (processPackage_spec cfg reg depEntries entry i (world p))
      as [_ Hl Hv Hf].
    pose proof (setWorker_inflight i Idle _ _ Hn) as Hi. simpl in Hi.
    assert (Hp : Permutation
              (entry :: inflight (setWorker i Idle (workers p)) ++ queue p)
              (inflight (workers p) ++ queue p)).
    { change (entry :: inflight (setWorker i Idle (workers p)) ++ queue p)
        with ((entry :: inflight (setWorker i Idle (workers p))) ++ queue p)%list.
      rewrite Hi. reflexivity. }
    rewrite Hl, Hv, Hf, metaQueries_app, metaQueries_commandsFor,
      probes_app, length_app.
    split; [rewrite <- (Permutation_length Hp); simpl;
            rewrite ?length_app; lia|].
    split; [|rewrite ?length_app; lia].
    rewrite <- Hp, <- app_assoc. simpl. reflexivity.
Qed.


Lemma runSchedule_books n0 names schedule : forall p,
  books n0 names p -> books n0 names (runSchedule cfg reg depEntries schedule p).
Proof.
  induction schedule as [|i rest IH]; intros p Hb; simpl; auto.
  destruct (workerStep cfg reg depEntries i p) as [p'|] eqn:Hs; auto.
  apply IH. destruct Hb as (Ha & Hb & Hc).
  destruct (workerStep_books i p p' Hs) as (Ha' & Hb' & Hc').
  unfold books. split; [lia|]. split; [rewrite Hb'; exact Hb | lia].
Qed.

Lemma drain_books n0 names fuel : forall p,
  books n0 names p -> books n0 names (drain cfg reg depEntries fuel p).
Proof.
  induction fuel as [|fuel IH]; intros p Hb; simpl; auto.
  destruct (firstActive (workers p)) as [i|]; auto.
  destruct (workerStep cfg reg depEntries i p) as [p'|] eqn:Hs; auto.
  apply IH. destruct Hb as (Ha & Hb & Hc).
  destruct (workerStep_books i p p' Hs) as (Ha' & Hb' & Hc').
  unfold books. split; [lia|]. split; [rewrite Hb'; exact Hb | lia].
Qed.

(** When all workers have stopped nothing is queued or held. *)
Lemma poolInv_empty all p :
  poolInv cfg reg depEntries all p -> allStopped p = true ->
  queue p = [] /\ inflight (workers p) = [].
Proof.
  intros [_ [Hq|Hq]] Hs; [|congruence].
  split; [exact Hq | apply allStopped_inflight, Hs].
Qed.

Lemma runStart_world w0 :
  let w1 := world (fst (runStart cfg depEntries w0)) in
  finished w1 = finished w0 /\ execLog w1 = execLog w0 /\
  versionQueries w1 = versionQueries w0 /\
  workerCount w1
  = Nat.min (Pos.to_nat (jobs cfg)) (List.length depEntries).
Proof.
  unfold runStart, when, redrawScreen, writeStderr.
  destruct (showProgress cfg); repeat (rewrite bind_run; simpl); auto.
Qed.

Lemma run_finalPool schedule w0 :
  run localeCompare cfg reg depEntries schedule w0
  = runFinish localeCompare cfg
      (world (finalPool cfg reg depEntries schedule w0)).
Proof.
  unfold run, finalPool. destruct (runStart cfg depEntries w0). reflexivity.
Qed.

Lemma finalPool_facts schedule tl :
  let w := world (finalPool cfg reg depEntries schedule (initialWorld tl)) in
  finished w = List.length depEntries /\
  Permutation (metaQueries (execLog w)) (map entryName depEntries) /\
  versionQueries w = List.length (probes (execLog w)) /\
  List.length (results w) = List.length depEntries.
Proof.
  cbn zeta. unfold finalPool.
  pose proof (runStart_inv cfg reg depEntries (initialWorld tl)) as Hinv.
  destruct (runStart_spec cfg depEntries (initialWorld tl)) as (Hq & Hw & _).
  destruct (runStart_world (initialWorld tl)) as (Hf & Hl & Hv & _).
  cbn zeta in Hf, Hl, Hv.
  set (p0 := fst (runStart cfg depEntries (initialWorld tl))) in *.
  assert (Hb : books (List.length depEntries) (map entryName depEntries) p0).
  { unfold books. rewrite Hf, Hl, Hv, Hq, Hw.
    assert (Hi : forall k, inflight (repeat Idle k) = []).
    { induction k; simpl; auto. }
    rewrite Hi. simpl. auto. }
  apply (runSchedule_inv cfg reg depEntries _ schedule) in Hinv.
  apply (runSchedule_books _ _ schedule) in Hb.
  set (p1 := runSchedule cfg reg depEntries schedule p0) in *.
  destruct (drain_complete cfg reg depEntries _ (stepsLeft p1) p1 eq_refl Hinv)
    as [Hd Hs].
  apply (drain_books _ _ (stepsLeft p1)) in Hb.
  set (p2 := drain cfg reg depEntries (stepsLeft p1) p1) in *.
  destruct (poolInv_empty _ _ Hd Hs) as [Hq2 Hi2].
  pose proof (poolInv_done cfg reg depEntries _ _ Hd Hs) as Hp.
  destruct Hb as (Ha & Hb & Hc).
  rewrite Hq2, Hi2 in Ha, Hb. simpl in Ha, Hb.
  rewrite app_nil_r in Hb.
  split; [lia|]. split; [exact Hb|]. split; [exact Hc|].
  rewrite (Permutation_length Hp). simpl. apply length_map.
Qed.

(** X14.  At the end of [run] the finished counter is the number of
    entries, the registry was asked for the metadata of every entry
    exactly once, and the counter of version lookups is the number of
    peer queries that were run. *)
Theorem run_counts_entries_and_queries schedule tl :
  let out := snd (run localeCompare cfg reg depEntries schedule
                      (initialWorld tl)) in
  finished out = List.length depEntries /\
  Permutation (metaQueries (execLog out)) (map entryName depEntries) /\
  versionQueries out = List.length (probes (execLog out)).
Proof.
  intros out. subst out. rewrite run_finalPool.
  destruct (finalPool_facts schedule tl) as (Hf & Hm & Hv & _).
  cbn zeta in Hf, Hm, Hv.
  set (w := world (finalPool cfg reg depEntries schedule (initialWorld tl))) in *.
  assert (H : forall w1,
            let w2 := snd (runFinish localeCompare cfg w1) in
            finished w2 = finished w1 /\ execLog w2 = execLog w1 /\
            versionQueries w2 = versionQueries w1).
  { intros w1. unfold runFinish, when, writeStderr.
    destruct (showProgress cfg); repeat (rewrite bind_run; simpl); auto. }
  destruct (H w) as (H1 & H2 & H3). rewrite H1, H2, H3. auto.
Qed.

Lemma updateWorkerStatus_workerCount i s :
  keeps workerCount (updateWorkerStatus cfg depEntries i s).
Proof.
  unfold updateWorkerStatus, redrawScreen, writeStderr, dateNow.
  apply keeps_bind; [apply keeps_gets | intros b].
  destruct (negb (showProgress cfg) || negb b)%bool; [apply keeps_ret|].
  apply keeps_bind; [frame | intros _].
  apply keeps_bind; [intros w; reflexivity | intros now].
  destruct (showProgress cfg); frame.
Qed.

(** The last two writes to stderr of a run with the progress display. *)
Lemma run_summary schedule tl :
  showProgress cfg = true ->
  let out := snd (run localeCompare cfg reg depEntries schedule
                      (initialWorld tl)) in
  exists frames,
    stderr out
    = (frames
         ++ [ ClearProgress;
              Summary (List.length depEntries)
                      (List.length (probes (execLog out)))
                      (Nat.min (Pos.to_nat (jobs cfg)) (List.length depEntries))
                      (angularMajor cfg)
                      (negb (fastLimit cfg =? 0)%Z)
                      (exhaustive cfg) ])%list.
Proof.
  intros Hon out. subst out. rewrite run_finalPool.
  destruct (finalPool_facts schedule tl) as (_ & _ & Hv & Hr).
  cbn zeta in Hv, Hr.
  assert (Hw : workerCount (world (finalPool cfg reg depEntries schedule (initialWorld tl)))
               = Nat.min (Pos.to_nat (jobs cfg)) (List.length depEntries)).
  { unfold finalPool.
    rewrite (drain_keeps cfg reg depEntries workerCount),
            (runSchedule_keeps cfg reg depEntries workerCount).
    all: try (intros; reflexivity).
    all: try apply updateWorkerStatus_workerCount.
    apply (runStart_world (initialWorld tl)). }
  set (w := world (finalPool cfg reg depEntries schedule (initialWorld tl))) in *.
  exists (stderr w).
  unfold runFinish, when, writeStderr. rewrite Hon.
  repeat (rewrite bind_run; simpl).
  rewrite Hr, Hv, Hw, <- app_assoc. reflexivity.
Qed.

(** X15.  With the progress display, the last thing a run writes to
    stderr is the summary: the number of entries, the number of peer
    queries run, the number of workers (the smaller of [--jobs] and the
    number of entries), the target major, and the mode, [fast] whenever
    the fast limit is not 0. *)
Theorem run_ends_with_summary schedule tl :
  showProgress cfg = true ->
  let out := snd (run localeCompare cfg reg depEntries schedule
                      (initialWorld tl)) in
  last (stderr out) Newlines
  = Summary (List.length depEntries)
            (List.length (probes (execLog out)))
            (Nat.min (Pos.to_nat (jobs cfg)) (List.length depEntries))
            (angularMajor cfg)
            (negb (fastLimit cfg =? 0)%Z)
            (exhaustive cfg).
Proof.
  intros Hon out.
  destruct (run_summary schedule tl Hon) as (frames & Hs).
  fold out in Hs. rewrite Hs.
  change (frames ++ [ClearProgress; ?s])%list
    with (frames ++ [ClearProgress] ++ [s])%list.
  rewrite app_assoc. apply last_last.
Qed.

(** X16.  A negative fast limit, as [--fast=-3] gives, does not limit
    the scan: the candidates are all the versions and there is no
    extension, as without the flag; yet the summary reports the fast
    mode. *)
Theorem negative_fast_limit_scans_all_but_reports_fast :
  (fastLimit cfg < 0)%Z ->
  (forall i n cc versions w,
     scanVersions cfg reg depEntries i n cc versions w
     = scanLoop cfg reg depEntries i n cc versions
                {| scanPeerAngular := None; compatVersions := [];
                   hasAngularPeerDep := false; currentVersionFound := false;
                   versionIndex := 0 |} w) /\
  (showProgress cfg = true ->
   forall schedule tl,
     exists frames packages lookups concurrency,
       stderr (snd (run localeCompare cfg reg depEntries schedule
                        (initialWorld tl)))
       = (frames ++ [ ClearProgress;
                      Summary packages lookups concurrency (angularMajor cfg)
                              true (exhaustive cfg) ])%list).
Proof.
  intros Hneg.
  assert (Hlt : (0 <? fastLimit cfg)%Z = false) by (apply Z.ltb_ge; lia).
  assert (Hne : (fastLimit cfg =? 0)%Z = false) by (apply Z.eqb_neq; lia).
  split.
  - intros i n cc versions w.
    unfold scanVersions, candidateVersions, scanInit. rewrite Hlt.
    rewrite bind_run.
    assert (Hm : forall st, mustExtend cfg versions st = false).
    { intros st. unfold mustExtend. rewrite Hlt. simpl.
      rewrite andb_false_r. reflexivity. }
    rewrite Hm. unfold ret. rewrite <- surjective_pairing. reflexivity.
  - intros Hon schedule tl.
    destruct (run_summary schedule tl Hon) as (frames & Hs).
    cbn zeta in Hs. rewrite Hne in Hs. simpl in Hs.
    eexists _, _, _, _. exact Hs.
Qed.
End RunFacts.

(* ------------------------------------------------------------------ *)
(** ** The two sorts *)

Section SortFacts.
Context {A : Type} (cmp : A -> A -> comparison).

Hypothesis cmp_asym : forall a b, cmp a b = Gt -> cmp b a <> Gt.

Lemma insertSorted_hd x y ys :
  HdRel (fun a b => cmp a b <> Gt) y ys -> cmp y x <> Gt ->
  HdRel (fun a b => cmp a b <> Gt) y (insertSorted cmp x ys).
Proof.
  intros Hh Hx. destruct ys as [|z zs]; simpl.
  - constructor. exact Hx.
  - destruct (cmp x z); constructor; auto; inversion Hh; auto.
Qed.

Lemma insertSorted_sorted x xs :
  Sorted (fun a b => cmp a b <> Gt) xs ->
  Sorted (fun a b => cmp a b <> Gt) (insertSorted cmp x xs).
Proof.
  induction xs as [|y ys IH]; intros Hs; simpl.
  - repeat constructor.
  - inversion Hs as [|? ? Hys Hhd]; subst.
    destruct (cmp x y) eqn:Hc.
    + constructor; [exact Hs | constructor; congruence].
    + constructor; [exact Hs | constructor; congruence].
    + constructor; [apply IH, Hys|].
      apply insertSorted_hd; [exact Hhd | apply cmp_asym, Hc].
Qed.

Lemma sortBy_sorted xs : Sorted (fun a b => cmp a b <> Gt) (sortBy cmp xs).
Proof.
  induction xs as [|x xs IH]; simpl; [constructor|].
  apply insertSorted_sorted, IH.
Qed.
End SortFacts.

Section OrderFacts.
Context {semver : Semver}.
Variable localeCompare : string -> string -> comparison.
Variable cfg : Config.
Variable reg : Registry.
Variable depEntries : list DepEntry.

Lemma insertSorted_Forall {A} (cmp : A -> A -> comparison) (P : A -> Prop) x xs :
  P x -> Forall P xs -> Forall P (insertSorted cmp x xs).
Proof.
  intros Hx Hxs.
  apply (Permutation_Forall (Permutation_sym (insertSorted_perm cmp x xs))).
  constructor; assumption.
Qed.

(** Inserting a record keeps the dependencies before the
    devDependencies, whatever [localeCompare] answers. *)
Lemma insertSorted_devs_last x : forall a b,
  Forall (fun r => isDev r = false) a -> Forall (fun r => isDev r = true) b ->
  exists a' b',
    insertSorted (compareResults localeCompare) x (a ++ b) = (a' ++ b')%list /\
    Forall (fun r => isDev r = false) a' /\
    Forall (fun r => isDev r = true) b'.
Proof.
  induction a as [|y a IH]; intros b Ha Hb.
  - destruct (isDev x) eqn:Hx.
    + exists [], (insertSorted (compareResults localeCompare) x b).
      split; [reflexivity|]. split; [constructor|].
      apply insertSorted_Forall; assumption.
    + exists [x], b. split; [|split; [repeat constructor; exact Hx | exact Hb]].
      simpl. destruct b as [|z b]; [reflexivity|].
      inversion Hb; subst. simpl. unfold compareResults.
      rewrite Hx. replace (isDev z) with true by auto. reflexivity.
  - inversion Ha as [|? ? Hy Ha']; subst.
    cbn [app insertSorted].
    destruct (compareResults localeCompare x y) eqn:Hc.
    + assert (Hx : isDev x = false).
      { unfold compareResults in Hc. rewrite Hy in Hc.
        destruct (isDev x); [discriminate | reflexivity]. }
      exists (x :: y :: a), b. repeat split; auto.
    + assert (Hx : isDev x = false).
      { unfold compareResults in Hc. rewrite Hy in Hc.
        destruct (isDev x); [discriminate | reflexivity]. }
      exists (x :: y :: a), b. repeat split; auto.
    + destruct (IH b Ha' Hb) as (a' & b' & He & Ha2 & Hb2).
      exists (y :: a'), b'. rewrite He. repeat split; auto.
Qed.

Lemma sortBy_devs_last rs :
  exists a b,
    sortBy (compareResults localeCompare) rs = (a ++ b)%list /\
    Forall (fun r => isDev r = false) a /\
    Forall (fun r => isDev r = true) b.
Proof.
  induction rs as [|x rs IH]; simpl.
  - exists [], []. repeat split; constructor.
  - destruct IH as (a & b & He & Ha & Hb). rewrite He.
    apply insertSorted_devs_last; assumption.
Qed.

Lemma run_sorted_results schedule w0 :
  results (snd (run localeCompare cfg reg depEntries schedule w0))
  = sortBy (compareResults localeCompare)
      (results (world (finalPool cfg reg depEntries schedule w0))).
Proof.
  unfold run, finalPool, runFinish, when, writeStderr.
  destruct (runStart cfg depEntries w0) as [p0 w1]. cbn [fst].
  destruct (showProgress cfg); repeat (rewrite bind_run; simpl); reflexivity.
Qed.

(** X17.  In the results of [run] all the records of dependencies come
    before all the records of devDependencies, whatever the comparison
    of names answers. *)
Theorem dependencies_before_devDependencies schedule tl :
  exists deps devs,
    results (snd (run localeCompare cfg reg depEntries schedule
                      (initialWorld tl)))
    = (deps ++ devs)%list /\
    Forall (fun r => isDev r = false) deps /\
    Forall (fun r => isDev r = true) devs.
Proof.
  rewrite run_sorted_results. apply sortBy_devs_last.
Qed.

(** X18.  When the comparison of names never answers that each of two
    names comes after the other, no record in the results of [run] is
    followed by one that the comparator of the sort puts before it. *)
Theorem results_are_in_order schedule tl :
  (forall a b, localeCompare a b = Gt -> localeCompare b a <> Gt) ->
  Sorted (fun a b => compareResults localeCompare a b <> Gt)
         (results (snd (run localeCompare cfg reg depEntries schedule
                            (initialWorld tl)))).
Proof.
  intros Hasym. rewrite run_sorted_results.
  apply sortBy_sorted.
  intros a b. unfold compareResults.
  destruct (isDev a), (isDev b); simpl; try discriminate; apply Hasym.
Qed.

(** X19.  The versions of a package that the scan works on are the
    entries of [meta.versions] that are valid versions and, unless
    [--include-prerelease] is given, not pre-releases, each as often as
    it is listed: none is lost and none is added by the sort. *)
Theorem packageVersions_keeps_valid_versions meta :
  let listed :=
    match metaVersions meta with
    | Some vs => vs
    | None => match metaVersion meta with Some v => [v] | None => [] end
    end in
  Permutation (packageVersions cfg meta)
    (filter (fun v => valid v
                      && (includePrerelease cfg || negb (prerelease v)))%bool
            listed).
Proof.
  intros listed. unfold packageVersions. fold listed.
  rewrite sortBy_perm.
  destruct (includePrerelease cfg); simpl.
  - erewrite filter_ext; [reflexivity|].
    intros v. simpl. rewrite andb_true_r. reflexivity.
  - induction listed as [|v vs IH]; simpl; auto.
    destruct (valid v); simpl; auto.
    destruct (prerelease v); simpl; auto.
Qed.

(** X20.  When [semver.rcompare] never answers that each of two versions
    sorts after the other, no version in the list the scan works on is
    followed by one that [rcompare] sorts before it: the list is probed
    newest first. *)
Theorem packageVersions_newest_first meta :
  (forall a b, rcompare a b = Gt -> rcompare b a <> Gt) ->
  Sorted (fun a b => rcompare a b <> Gt) (packageVersions cfg meta).
Proof.
  intros Hasym. unfold packageVersions. apply sortBy_sorted, Hasym.
Qed.
End OrderFacts.

(* ------------------------------------------------------------------ *)
(** ** The manifest, the links, the flags and the rows *)

Lemma entriesOf_In dev l entry :
  In entry (entriesOf dev l) <->
  keepsDependency (entryName entry) = true /\
  entryIsDev entry = dev /\
  In (entryName entry, entryCurrent entry) l.
Proof.
  unfold entriesOf. rewrite in_map_iff. split.
  - intros ([n c] & He & Hf). apply filter_In in Hf.
    destruct Hf as [Hl Hk]. subst entry. simpl in *. auto.
  - intros (Hk & Hd & Hl). exists (entryName entry, entryCurrent entry).
    split; [destruct entry; simpl in *; subst; reflexivity|].
    apply filter_In. auto.
Qed.

Lemma keepsDependency_true n :
  keepsDependency n = true <->
  startsWith "@angular/" n = false /\ startsWith "@ptp/" n = false.
Proof.
  unfold keepsDependency.
  destruct (startsWith "@angular/" n), (startsWith "@ptp/" n); simpl; split;
    try discriminate; auto; intros [? ?]; discriminate.
Qed.


(** X21.  The entries built from the manifest are the dependencies and
    the devDependencies whose names start neither with [@angular/] nor
    with [@ptp/], with their declared range and their kind; the
    dependencies come first. *)
Theorem depEntriesOf_spec regularDeps devDeps entry :
  (In entry (depEntriesOf regularDeps devDeps) <->
   startsWith "@angular/" (entryName entry) = false /\
   startsWith "@ptp/" (entryName entry) = false /\
   In (entryName entry, entryCurrent entry)
      (if entryIsDev entry then devDeps else regularDeps)) /\
  exists deps devs,
    depEntriesOf regularDeps devDeps = (deps ++ devs)%list /\
    Forall (fun e => entryIsDev e = false) deps /\
    Forall (fun e => entryIsDev e = true) devs.
Proof.
  assert (Hd : forall dev l, Forall (fun e => entryIsDev e = dev) (entriesOf dev l)).
  { intros dev l. unfold entriesOf. apply Forall_forall.
    intros e He. apply in_map_iff in He. destruct He as (nc & He & _).
    subst e. reflexivity. }
  split.
  - unfold depEntriesOf.
    rewrite in_app_iff, !entriesOf_In, keepsDependency_true. split.
    + intros [((Ha & Hp) & H2 & H3)|((Ha & Hp) & H2 & H3)]; rewrite H2; auto.
    + intros (Ha & Hp & Hl).
      destruct (entryIsDev entry); [right | left]; repeat split; auto.
  - exists (entriesOf false regularDeps), (entriesOf true devDeps).
    split; [reflexivity|]. split; apply Hd.
Qed.



(** X23.  With an argument that starts with [--fast] the fast limit is
    never 0: it is the number after [=] when that is a number other than
    0, and 15 when there is no [=], nothing after it, no number, or 0.
    Without such an argument it is 0. *)
Theorem fast_flag_never_gives_zero Number args :
  match find (startsWith "--fast") args with
  | None => parseFastLimit Number args = 0%Z
  | Some fastArg =>
      parseFastLimit Number args <> 0%Z /\
      match nth_error (split "=" fastArg) 1 with
      | None | Some EmptyString => parseFastLimit Number args = 15%Z
      | Some value =>
          parseFastLimit Number args
          = match Number value with
            | None | Some 0%Z => 15%Z
            | Some n => n
            end
      end
  end.
Proof.
  unfold parseFastLimit, flagValue.
  destruct (find (startsWith "--fast") args) as [fastArg|]; [|reflexivity].
  destruct (nth_error (split "=" fastArg) 1) as [value|].
  - destruct value as [|c value]; cbn [truthyStr].
    + split; [discriminate | reflexivity].
    + destruct (Number (String c value)) as [n|].
      * destruct n; simpl; split; try discriminate; reflexivity.
      * split; [discriminate | reflexivity].
  - split; [discriminate | reflexivity].
Qed.

Lemma countChar_app c a b :
  countChar c (a ++ b) = countChar c a + countChar c b.
Proof.
  induction a as [|d a IH]; simpl; auto. rewrite IH. lia.
Qed.

Lemma countChar_concat c sep l :
  countChar c (String.concat sep l)
  = list_sum (map (countChar c) l)
    + (List.length l - 1) * countChar c sep.
Proof.
  induction l as [|x l IH]; simpl; auto.
  destruct l as [|y l].
  - simpl. lia.
  - rewrite !countChar_app, IH. simpl. lia.
Qed.

(** X24.  A row is its eleven columns joined by commas, without quoting
    or escaping: it holds ten commas more than its columns do, so it
    reads as eleven fields exactly when no column holds a comma. *)
Theorem csvRow_does_not_escape r :
  csvRow r = String.concat "," (csvFields r) /\
  countChar "," (csvRow r)
  = 10 + list_sum (map (countChar ",") (csvFields r)) /\
  (countChar "," (csvRow r) = 10 <->
   Forall (fun field => countChar "," field = 0) (csvFields r)).
Proof.
  assert (H : countChar "," (csvRow r)
              = 10 + list_sum (map (countChar ",") (csvFields r))).
  { change (csvRow r) with (String.concat "," (csvFields r)).
    rewrite countChar_concat. unfold csvFields. simpl. lia. }
  split; [reflexivity|]. split; [exact H|].
  rewrite H. generalize (csvFields r). intros l. split.
  - intros Hs. assert (Hz : list_sum (map (countChar ",") l) = 0) by lia.
    clear Hs. induction l as [|x l IH]; [constructor|].
    simpl in Hz. constructor; [lia | apply IH; lia].
  - intros Hf. induction Hf as [|x l Hx _ IH]; simpl in *; lia.
Qed.

(* ------------------------------------------------------------------ *)
(** ** The comparisons of the scenarios *)

Lemma asciiCompare_asym a b :
  NumericSemver.asciiCompare a b = Gt -> NumericSemver.asciiCompare b a <> Gt.
Proof.
  unfold NumericSemver.asciiCompare. intros H.
  rewrite String.compare_antisym, H. discriminate.
Qed.

Lemma compareVersions_asym x y :
  NumericSemver.compareVersions x y = Gt ->
  NumericSemver.compareVersions y x <> Gt.
Proof.
  unfold NumericSemver.compareVersions.
  rewrite (Z.compare_antisym (major x) (major y)),
          (Z.compare_antisym (minor x) (minor y)),
          (Z.compare_antisym (patch x) (patch y)).
  destruct (major x ?= major y)%Z, (minor x ?= minor y)%Z,
           (patch x ?= patch y)%Z; simpl; congruence.
Qed.

Lemma numeric_rcompare_asym a b :
  @rcompare NumericSemver.numeric a b = Gt ->
  @rcompare NumericSemver.numeric b a <> Gt.
Proof.
  simpl.
  destruct (NumericSemver.parseVersion a), (NumericSemver.parseVersion b);
    try discriminate.
  apply compareVersions_asym.
Qed.

(* ------------------------------------------------------------------ *)
(** ** The scenarios *)

#[local] Existing Instance NumericSemver.numeric.

(** Fast limit 2, versions 3.0.0 (needs Angular 20), 2.0.0 and 1.0.0 (both
    accept 19), current 1.0.0: the scan goes past the limit and reaches
    1.0.0. *)
Lemma extension_resumes_until_current_witness :
  probes (issued Scenario.w0
            (snd (scanVersions (Scenario.config 2 false) Scenario.registry []
                    0 "lib-a" "1.0.0" ["3.0.0"; "2.0.0"; "1.0.0"]
                    Scenario.w0)))
  = ["3.0.0"; "2.0.0"; "1.0.0"].
Proof.
  destruct (extension_resumes_until_current
              (Scenario.config 2 false) Scenario.registry []
              0 "lib-a" "1.0.0" ["3.0.0"; "2.0.0"; "1.0.0"] Scenario.w0)
    as [_ H].
  - reflexivity.
  - vm_compute. intros [H|[H|[]]]; discriminate H.
  - exists "3.0.0". split; [left; reflexivity | reflexivity].
  - rewrite H. reflexivity.
Defined.

(** Fast limit 1, not exhaustive, newest version without peer
    dependencies: one probe, one counted query. *)
Lemma early_exit_without_peer_witness :
  let r := scanVersions (Scenario.config 1 false) Scenario.registry []
             0 "plain" "2.0.0" ["2.0.0"; "1.9.0"] Scenario.w0 in
  probes (issued Scenario.w0 (snd r)) = ["2.0.0"] /\
  versionQueries (snd r) = 1.
Proof.
  exact (proj2 (early_exit_without_peer
                  (Scenario.config 1 false) Scenario.registry []
                  0 "plain" "2.0.0" Scenario.w0 eq_refl)
               "2.0.0" ["1.9.0"] eq_refl).
Defined.

(** Version 2.0.0 of [lib-a] declares [^19.0.0], which 19.0.0 satisfies:
    it is in the compatible list. *)
Lemma formal_peer_classification_witness :
  In "2.0.0"
     (compatVersions
        (fst (scanVersions (Scenario.config 0 true) Scenario.registry []
                0 "lib-a" "1.0.0" ["3.0.0"; "2.0.0"; "1.0.0"] Scenario.w0))).
Proof.
  apply (formal_peer_classification
           (Scenario.config 0 true) Scenario.registry []
           0 "lib-a" "1.0.0" ["3.0.0"; "2.0.0"; "1.0.0"] Scenario.w0 "2.0.0").
  - vm_compute. right; left; reflexivity.
  - reflexivity.
  - reflexivity.
Defined.

(** The query for version 1.0.0 of [lib-c] fails while 2.0.0 needs Angular
    20: 1.0.0 is the latest and the earliest compatible version. *)
Lemma peerless_version_is_compatible_witness :
  let st := fst (scanVersions (Scenario.config 0 false) Scenario.registry []
                   0 "lib-c" "2.0.0" ["2.0.0"; "1.0.0"] Scenario.w0) in
  viewPeerDeps Scenario.registry "lib-c" "1.0.0" = None /\
  hasAngularPeerDep st = true /\
  In "1.0.0" (compatVersions st) /\
  latestCompatOf st = Some "1.0.0" /\
  earliestCompatOf st = Some "1.0.0".
Proof.
  destruct (peerless_version_is_compatible
              (Scenario.config 0 false) Scenario.registry []
              0 "lib-c" "2.0.0" ["2.0.0"; "1.0.0"] Scenario.w0 "1.0.0")
    as (H1 & H2 & H3).
  - vm_compute. right; left; reflexivity.
  - left. reflexivity.
  - split; [reflexivity|]. split; [reflexivity|]. split; [exact H1|].
    split; [apply H2 | apply H3]; reflexivity.
Defined.

(** Current 4.0.0, compatible versions 6.2.0 and 6.0.0: must upgrade to
    6.0.0. *)
Lemma formal_recommendation_witness :
  let rs := pushed Scenario.w0
              (snd (processPackage (Scenario.config 0 false) Scenario.registry
                      [] (Scenario.entry "lib-b" "4.0.0") 0 Scenario.w0)) in
  map latestCompat rs = [Some "6.2.0"] /\
  map earliestCompat rs = [Some "6.0.0"] /\
  map recommendedVersion rs = [Some "#1 Must upgrade to 6.0.0"].
Proof.
  refine (formal_recommendation
            (Scenario.config 0 false) Scenario.registry []
            (Scenario.entry "lib-b" "4.0.0") 0 Scenario.w0 _ eq_refl _ _).
  - reflexivity.
  - vm_compute. discriminate.
Defined.

(** [plain] has no peer dependencies and passes the heuristic check; the
    project is on 1.0.0 and [latest] is 1.9.0. *)
Lemma informal_recommendation_witness :
  let rs := pushed Scenario.w0
              (snd (processPackage (Scenario.config 0 false) Scenario.registry
                      [] (Scenario.entry "plain" "^1.0.0") 0 Scenario.w0)) in
  map earliestCompat rs = [Some "n/a"] /\
  map latestCompat rs = [Some "n/a"] /\
  map recommendedVersion rs = [Some "#2 Optionally upgrade to 1.9.0"].
Proof.
  edestruct (informal_recommendation
               (Scenario.config 0 false) Scenario.registry []
               (Scenario.entry "plain" "^1.0.0") 0 Scenario.w0)
    as (H1 & H2 & _ & H4).
  - reflexivity.
  - reflexivity.
  - reflexivity.
  - split; [exact H1|]. split; [exact H2|]. exact (H4 eq_refl).
Defined.

(** C6, as stated, fails on [lonely]: no peer dependencies, current and
    latest both 1.2.0, and the keyword query of the heuristic check is
    rejected; the recommendation is [n/a], not to keep. *)
Lemma recommendation_equal_counterexample :
  ~ recommendationComparesWithLatest
      (Scenario.config 0 false) Scenario.registry []
      (Scenario.entry "lonely" "1.2.0") 0 Scenario.w0.
Proof.
  intros H.
  edestruct H as (Hequal & _ & _).
  - reflexivity.
  - reflexivity.
  - reflexivity.
  - vm_compute. reflexivity.
  - specialize (Hequal eq_refl). vm_compute in Hequal. discriminate Hequal.
Qed.

(** When the current version is ahead of [latest] ([plain] on 2.0.0,
    [latest] 1.9.0) the recommendation is the one for two different
    strings. *)
Example recommendation_when_ahead :
  gt "2.0.0" "1.9.0" = Some true /\
  map recommendedVersion
      (pushed Scenario.w0
         (snd (processPackage (Scenario.config 0 false) Scenario.registry
                 [] (Scenario.entry "plain" "2.0.0") 0 Scenario.w0)))
  = [Some "#2 Optionally upgrade to 1.9.0"].
Proof. split; reflexivity. Qed.

(** [missing] is unknown to the registry: its record is the record of the
    failure, and the entry is counted. *)
Lemma metadata_failure_is_recorded_witness :
  let w' := snd (processPackage (Scenario.config 0 false) Scenario.registry
                   [Scenario.entry "missing" "^1.0.0"]
                   (Scenario.entry "missing" "^1.0.0") 0 Scenario.w0) in
  viewMeta Scenario.registry "missing" = None /\
  map note (results w') = [Some "Failed to fetch metadata"] /\
  map peerAngular (results w') = [Some "Unknown"] /\
  map recommendedVersion (results w') = [Some "n/a"] /\
  finished w' = 1.
Proof.
  destruct (metadata_failure_is_recorded NumericSemver.asciiCompare
              (Scenario.config 0 false) Scenario.registry
              [Scenario.entry "missing" "^1.0.0"]
              (Scenario.entry "missing" "^1.0.0") 0 Scenario.w0 eq_refl)
    as (Hr & Hf & _).
  split; [reflexivity|].
  rewrite Hr. split; [reflexivity|]. split; [reflexivity|].
  split; [reflexivity | exact Hf].
Defined.

(** Without a fast limit and with [--exhaustive] all five versions of
    [lib-b] are probed. *)
Lemma no_fast_limit_scans_all_witness :
  probes (issued Scenario.w0
            (snd (scanVersions (Scenario.config 0 true) Scenario.registry []
                    0 "lib-b" "4.0.0"
                    ["7.0.0"; "6.2.0"; "6.0.0"; "5.0.0"; "4.0.0"]
                    Scenario.w0)))
  = ["7.0.0"; "6.2.0"; "6.0.0"; "5.0.0"; "4.0.0"].
Proof.
  exact (proj2 (proj2 (no_fast_limit_scans_all
                         (Scenario.config 0 true) Scenario.registry []
                         0 "lib-b" "4.0.0"
                         ["7.0.0"; "6.2.0"; "6.0.0"; "5.0.0"; "4.0.0"]
                         Scenario.w0 eq_refl)) eq_refl).
Defined.

(** A run over three entries with two workers, the second worker moving
    first: the rows come out sorted, dependencies before
    devDependencies, and the same with the progress display and
    [--verbose] switched on. *)
Example run_three_entries :
  let entries :=
    [ {| entryName := "missing"; entryCurrent := "^1.0.0"; entryIsDev := true |};
      Scenario.entry "lib-b" "^4.0.0";
      Scenario.entry "lib-a" "~2.0.0" ] in
  let quiet := withToggles false false (Scenario.config 2 false) in
  let noisy := withToggles true true (Scenario.config 2 false) in
  let out := snd (run NumericSemver.asciiCompare quiet Scenario.registry
                      entries [1; 0; 1; 1; 0] Scenario.w0) in
  let out' := snd (run NumericSemver.asciiCompare noisy Scenario.registry
                       entries [] (initialWorld (fun k => Z.of_nat k * 70)%Z)) in
  stdout out
  = [ csvHeader;
      "lib-a,false,~2.0.0,3.0.0,2.0.0,2.0.0,^20.0.0,Up to date with latest compatible,#3 Keep current version,Current version is compatible,";
      "lib-b,false,^4.0.0,7.0.0,6.0.0,6.2.0,^20.0.0,2 major versions behind latest compatible,#1 Must upgrade to 6.0.0,Newer latest likely needs different Angular peer or is prerelease,";
      "missing,true,^1.0.0,,n/a,n/a,Unknown,Unknown,n/a,Failed to fetch metadata," ]
  /\ stdout out' = stdout out
  /\ finished out = 3 /\ versionQueries out = 7.
Proof. vm_compute. repeat split. Qed.

(* ------------------------------------------------------------------ *)
(** ** More scenarios *)

(** Without the progress display a run over [lib-a] leaves stderr empty
    and does not read the clock. *)
Lemma no_progress_is_silent_witness :
  let out := snd (run NumericSemver.asciiCompare (Scenario.config 0 false)
                      Scenario.registry [Scenario.entry "lib-a" "1.0.0"] []
                      Scenario.w0) in
  stderr out = [] /\ clockReads out = 0.
Proof.
  exact (proj2 (no_progress_is_silent NumericSemver.asciiCompare
                  (Scenario.config 0 false) Scenario.registry
                  [Scenario.entry "lib-a" "1.0.0"] eq_refl) [] Scenario.w0).
Defined.

(** The newest version of [lib-a] declares a peer requirement. *)
Lemma newest_version_decides_peer_flag_witness :
  hasAngularPeerDep
    (fst (scanVersions (Scenario.config 0 false) Scenario.registry [] 0
            "lib-a" "1.0.0" ["3.0.0"; "2.0.0"; "1.0.0"] Scenario.w0))
  = true.
Proof.
  exact (newest_version_decides_peer_flag
           (Scenario.config 0 false) Scenario.registry [] 0
           "lib-a" "1.0.0" "3.0.0" ["2.0.0"; "1.0.0"] Scenario.w0 eq_refl).
Defined.

(** Fast limit 2 and current version 2.0.0 of [lib-a]: two probes at
    most. *)
Lemma fast_limit_bounds_probes_witness :
  versionQueries
    (snd (scanVersions (Scenario.config 2 false) Scenario.registry [] 0
            "lib-a" "2.0.0" ["3.0.0"; "2.0.0"; "1.0.0"] Scenario.w0))
  - versionQueries Scenario.w0 <= 2.
Proof.
  exact (fast_limit_bounds_probes
           (Scenario.config 2 false) Scenario.registry [] 0
           "lib-a" "2.0.0" ["3.0.0"; "2.0.0"; "1.0.0"] Scenario.w0
           eq_refl (or_introl eq_refl)).
Defined.

(** All the versions of [lib-b], exhaustively: 6.2.0 and 6.0.0 are the
    compatible ones. *)
Lemma exhaustive_scan_brackets_all_versions_witness :
  let st := fst (scanVersions (Scenario.config 0 true) Scenario.registry [] 0
                   "lib-b" "4.0.0"
                   ["7.0.0"; "6.2.0"; "6.0.0"; "5.0.0"; "4.0.0"] Scenario.w0) in
  compatVersions st = ["6.2.0"; "6.0.0"] /\
  latestCompatOf st = Some "6.2.0" /\
  earliestCompatOf st = Some "6.0.0".
Proof.
  destruct (exhaustive_scan_brackets_all_versions
              (Scenario.config 0 true) Scenario.registry [] 0
              "lib-b" "4.0.0" ["7.0.0"; "6.2.0"; "6.0.0"; "5.0.0"; "4.0.0"]
              Scenario.w0 eq_refl eq_refl) as (H1 & H2 & H3).
  split; [exact H1|]. split; [exact H2 | exact (H3 eq_refl)].
Defined.

(** No version of [lib-a] accepts Angular 21. *)
Lemma no_compatible_version_record_witness :
  let rs := pushed Scenario.w0
              (snd (processPackage Scenario.config21 Scenario.registry []
                      (Scenario.entry "lib-a" "^1.0.0") 0 Scenario.w0)) in
  map recommendedVersion rs = [Some "n/a"] /\
  map latestCompat rs = [Some ""] /\
  map note rs = [Some "No compatible version found for Angular 21"].
Proof.
  cbn zeta.
  erewrite (no_compatible_version_record Scenario.config21 Scenario.registry
              [] (Scenario.entry "lib-a" "^1.0.0") 0 Scenario.w0).
  - repeat split.
  - reflexivity.
  - reflexivity.
  - reflexivity.
Defined.

(** [lib-b] on 4.0.0: the latest compatible version 6.2.0 is not the
    latest version 7.0.0. *)
Lemma formal_note_is_one_of_three_witness :
  map note
      (pushed Scenario.w0
         (snd (processPackage (Scenario.config 0 false) Scenario.registry []
                 (Scenario.entry "lib-b" "4.0.0") 0 Scenario.w0)))
  = [Some "Newer latest likely needs different Angular peer or is prerelease"].
Proof.
  refine (formal_note_is_one_of_three
            (Scenario.config 0 false) Scenario.registry []
            (Scenario.entry "lib-b" "4.0.0") 0 Scenario.w0 _ eq_refl _ _).
  - reflexivity.
  - vm_compute. discriminate.
Defined.

(** A run over [lib-a] with the progress display: one package, three
    lookups, one worker, full mode. *)
Lemma run_ends_with_summary_witness :
  last (stderr (snd (run NumericSemver.asciiCompare
                         (withToggles true false (Scenario.config 0 false))
                         Scenario.registry [Scenario.entry "lib-a" "1.0.0"] []
                         (initialWorld (fun _ => 0%Z)))))
       Newlines
  = Summary 1 3 1 19 false false.
Proof.
  etransitivity.
  - exact (run_ends_with_summary NumericSemver.asciiCompare
             (withToggles true false (Scenario.config 0 false))
             Scenario.registry [Scenario.entry "lib-a" "1.0.0"] []
             (fun _ => 0%Z) eq_refl).
  - vm_compute. reflexivity.
Defined.

(** With [fastLimit] -3 the scan of [lib-a] is the first loop over its
    three versions. *)
Lemma negative_fast_limit_witness :
  scanVersions (Scenario.config (-3) false) Scenario.registry [] 0
               "lib-a" "1.0.0" ["3.0.0"; "2.0.0"; "1.0.0"] Scenario.w0
  = scanLoop (Scenario.config (-3) false) Scenario.registry [] 0
             "lib-a" "1.0.0" ["3.0.0"; "2.0.0"; "1.0.0"]
             {| scanPeerAngular := None; compatVersions := [];
                hasAngularPeerDep := false; currentVersionFound := false;
                versionIndex := 0 |} Scenario.w0.
Proof.
  exact (proj1 (negative_fast_limit_scans_all_but_reports_fast
                  NumericSemver.asciiCompare (Scenario.config (-3) false)
                  Scenario.registry [] eq_refl)
               0 "lib-a" "1.0.0" ["3.0.0"; "2.0.0"; "1.0.0"] Scenario.w0).
Defined.

(** The results of a run over three entries are in order. *)
Lemma results_are_in_order_witness :
  Sorted (fun a b => compareResults NumericSemver.asciiCompare a b <> Gt)
         (results
            (snd (run NumericSemver.asciiCompare (Scenario.config 0 false)
                      Scenario.registry
                      [ Scenario.entry "plain" "1.0.0";
                        Scenario.entry "lib-b" "4.0.0";
                        Scenario.entry "lib-a" "1.0.0" ] [2; 0; 1]
                      Scenario.w0))).
Proof.
  exact (results_are_in_order NumericSemver.asciiCompare
           (Scenario.config 0 false) Scenario.registry
           [ Scenario.entry "plain" "1.0.0"; Scenario.entry "lib-b" "4.0.0";
             Scenario.entry "lib-a" "1.0.0" ] [2; 0; 1] (fun _ => 0%Z)
           asciiCompare_asym).
Defined.

(** The versions of a package listed oldest first are worked on newest
    first. *)
Lemma packageVersions_newest_first_witness :
  Sorted (fun a b => rcompare a b <> Gt)
         (packageVersions (Scenario.config 0 false)
            {| metaVersion := Some "3.0.0";
               metaVersions := Some ["1.0.0"; "3.0.0"; "2.0.0"];
               metaHomepage := None; metaRepositoryUrl := None |}).
Proof.
  exact (packageVersions_newest_first (Scenario.config 0 false)
           {| metaVersion := Some "3.0.0";
              metaVersions := Some ["1.0.0"; "3.0.0"; "2.0.0"];
              metaHomepage := None; metaRepositoryUrl := None |}
           numeric_rcompare_asym).
Defined.

